(** * Capture-and-replay subsystem of doppelist: a shallow embedding

    Sources embedded here:
    - src/src/lib/interaction/event-recorder.ts  (EventRecorder, EventReplayer)
    - src/src/lib/vendors/celtra.ts              (OverlayRecorder)
    - src/src/lib/capture/recorder.ts            (createCroppedStream,
                                                  requestScreenCapture,
                                                  createRecorder)
    - the recorder hook (beginPreparedRecording) and the page's
      handleReloadAndRecord.

    JavaScript numbers that carry times and pixel geometry are modelled as
    rationals [Q]; timestamps stored in interaction events are produced by
    [Math.round], so they are integers [Z].  Effects that the code performs
    on the browser (dispatching DOM events, scheduling animation frames,
    logging, invoking callbacks) are recorded as an ordered list of
    effects, in the order in which the code performs them. *)

From Stdlib Require Import ZArith QArith List Sorted Permutation Bool Lia.
From Stdlib Require String.
From Stdlib Require Import Qround.
Import ListNotations.

Open Scope Q_scope.

(* ------------------------------------------------------------------ *)
(** ** Interaction events (types/interaction) *)

Inductive InteractionEventType :=
| click | mousedown | mouseup | mousemove
| touchstart | touchmove | touchend | scroll.

Record InteractionEvent := mkEvent {
  ev_type : InteractionEventType;
  timestamp : Z;
  ev_x : Z;
  ev_y : Z;
  ev_target : option String.string
}.

(** [a.timestamp <= b.timestamp] *)
Definition ts_le (a b : InteractionEvent) : Prop := (timestamp a <= timestamp b)%Z.

(* ------------------------------------------------------------------ *)
(** ** Array.prototype.sort with comparator [(a, b) => a.timestamp - b.timestamp]

    ECMAScript requires [sort] to be stable; with a consistent comparator
    the result is the unique stable sorted permutation, which is what this
    insertion sort computes. *)

Fixpoint insert_by_ts (e : InteractionEvent) (l : list InteractionEvent)
  : list InteractionEvent :=
  match l with
  | [] => [e]
  | x :: l' =>
      if (timestamp e <=? timestamp x)%Z then e :: x :: l'
      else x :: insert_by_ts e l'
  end.

Fixpoint sort_by_timestamp (l : list InteractionEvent) : list InteractionEvent :=
  match l with
  | [] => []
  | x :: l' => insert_by_ts x (sort_by_timestamp l')
  end.

(* ------------------------------------------------------------------ *)
(** ** EventReplayer *)

Module Replayer.

(** Effects the replayer performs, in order. *)
Inductive effect :=
| Warn                          (* console.warn *)
| Log                           (* console.log *)
| AccessContentDocument         (* reads iframe.contentDocument *)
| DispatchEvent (e : InteractionEvent)
| OnProgress (current total : nat)
| OnComplete
| OnError
| RequestAnimationFrame.

(** Settlement of the promise returned by [play]. *)
Inductive outcome := Resolved | Rejected | Pending.

Record EventReplayer := mkReplayer {
  events : list InteractionEvent;
  isPlaying : bool;
  startTime : Q;
  currentIndex : nat;
  targetDocument : bool  (* [this.targetDocument !== null] *)
}.

Definition initial : EventReplayer := mkReplayer [] false 0 0 false.

(** [loadEvents(events)] *)
Definition loadEvents (evs : list InteractionEvent) (s : EventReplayer)
  : EventReplayer :=
  mkReplayer (sort_by_timestamp evs) (isPlaying s) (startTime s) 0
    (targetDocument s).

(** The [while] loop of [replayLoop]: [rest] is
    [events.slice(currentIndex)], [idx] is [currentIndex]. *)
Fixpoint dispatch_while (elapsed : Q) (rest : list InteractionEvent)
    (idx total : nat) : nat * list effect :=
  match rest with
  | [] => (idx, [])
  | e :: rest' =>
      if Qle_bool (inject_Z (timestamp e)) elapsed then
        let '(idx', out) := dispatch_while elapsed rest' (S idx) total in
        (idx', DispatchEvent e :: OnProgress (S idx) total :: out)
      else (idx, [])
  end.

(** [replayLoop], run at time [now] (the value of [performance.now()]). *)
Definition replayLoop (now : Q) (s : EventReplayer) : EventReplayer * list effect :=
  if negb (isPlaying s) || negb (targetDocument s) then (s, [])
  else
    let elapsed := now - startTime s in
    let total := length (events s) in
    let '(idx, out) :=
      dispatch_while elapsed (skipn (currentIndex s) (events s))
        (currentIndex s) total in
    if (total <=? idx)%nat then
      (mkReplayer (events s) false (startTime s) idx (targetDocument s),
       out ++ [Log; OnComplete])
    else
      (mkReplayer (events s) (isPlaying s) (startTime s) idx (targetDocument s),
       out ++ [RequestAnimationFrame]).

(** [play(iframe, callbacks)] at time [now]; [doc] is whether
    [iframe.contentDocument] is non-null.  The first tick of the loop runs
    synchronously inside the promise executor. *)
Definition play (doc : bool) (now : Q) (s : EventReplayer)
  : EventReplayer * list effect * outcome :=
  if isPlaying s then (s, [Warn], Resolved)
  else match events s with
  | [] => (s, [Warn; OnComplete], Resolved)
  | _ :: _ =>
      if negb doc then (s, [AccessContentDocument; OnError], Rejected)
      else
        let s1 := mkReplayer (events s) true now 0 true in
        let '(s2, out) := replayLoop now s1 in
        (s2, AccessContentDocument :: Log :: out,
         if existsb (fun f => match f with OnComplete => true | _ => false end) out
         then Resolved else Pending)
  end.

(** An event is due at [elapsed] when [event.timestamp <= elapsed]. *)
Definition due (elapsed : Q) (e : InteractionEvent) : bool :=
  Qle_bool (inject_Z (timestamp e)) elapsed.

(** The events dispatched, in order, in an effect list. *)
Fixpoint dispatched (out : list effect) : list InteractionEvent :=
  match out with
  | [] => []
  | DispatchEvent e :: out' => e :: dispatched out'
  | _ :: out' => dispatched out'
  end.

(** Successive ticks of the scheduling loop at the given times. *)
Fixpoint run_ticks (times : list Q) (s : EventReplayer)
  : EventReplayer * list effect :=
  match times with
  | [] => (s, [])
  | t :: times' =>
      let '(s1, out1) := replayLoop t s in
      let '(s2, out2) := run_ticks times' s1 in
      (s2, out1 ++ out2)
  end.

End Replayer.

(* ------------------------------------------------------------------ *)
(** ** EventRecorder (event-recorder.ts) and OverlayRecorder (celtra.ts)

    Only the fields read by [stop] and [getDuration] are kept; [now] is
    the value of [performance.now()] at the call. *)

(** [Math.round(x)]: the nearest integer, halves rounded up. *)
Definition math_round (x : Q) : Z := Qfloor (x + (1 # 2)).

(** [events.length > 0 ? events[events.length - 1].timestamp : 0] *)
Definition last_timestamp_or_zero (evs : list InteractionEvent) : Q :=
  if (0 <? length evs)%nat then
    match nth_error evs (length evs - 1) with
    | Some e => inject_Z (timestamp e)
    | None => 0
    end
  else 0.

(** The timestamp of the last event of a list, [0] for none. *)
Definition last_recorded_timestamp (evs : list InteractionEvent) : Q :=
  match rev evs with
  | e :: _ => inject_Z (timestamp e)
  | [] => 0
  end.

Module EventRecorder.

Record t := mk {
  events : list InteractionEvent;
  startTime : Q;
  isRecording : bool;
  targetDocument : bool
}.

(** [start(iframe)]: [doc] is whether [iframe.contentDocument] is non-null. *)
Definition start (doc : bool) (now : Q) (s : t) : t * bool :=
  if isRecording s then (s, false)
  else if negb doc then (s, false)
  else (mk [] now true true, true).

(** A handler pushing an event while recording. *)
Definition record (e : InteractionEvent) (s : t) : t :=
  if isRecording s then mk (events s ++ [e]) (startTime s) true (targetDocument s)
  else s.

(** [stop()] returns the new state and the returned event list. *)
Definition stop (s : t) : t * list InteractionEvent :=
  if negb (isRecording s) then (s, events s)
  else (mk (events s) (startTime s) false false, events s).

Definition clear (s : t) : t :=
  mk [] (startTime s) (isRecording s) (targetDocument s).

Definition getDuration (now : Q) (s : t) : Q :=
  if negb (isRecording s) then last_timestamp_or_zero (events s)
  else now - startTime s.

End EventRecorder.

Module OverlayRecorder.

Record t := mk {
  events : list InteractionEvent;
  startTime : Q;
  isRecording : bool;
  iframe : bool;        (* [this.iframe !== null] *)
  isMouseOverAd : bool
}.

(** [start(options)]: [has_iframe] is whether the container holds an iframe. *)
Definition start (has_iframe : bool) (now : Q) (s : t) : t * bool :=
  if isRecording s then (s, false)
  else if negb has_iframe then (s, false)
  else (mk [] now true true (isMouseOverAd s), true).

(** [onWindowBlur] followed by [recordEvent("click", ...)]. *)
Definition onWindowBlur (now : Q) (x y : Z) (s : t) : t :=
  if negb (isRecording s) || negb (isMouseOverAd s) then s
  else
    let ts := math_round (now - startTime s) in
    mk (events s ++ [mkEvent click ts x y None]) (startTime s) true
       (iframe s) (isMouseOverAd s).

Definition stop (s : t) : t * list InteractionEvent :=
  if negb (isRecording s) then (s, events s)
  else (mk (events s) (startTime s) false false (isMouseOverAd s), events s).

Definition getDuration (now : Q) (s : t) : Q :=
  if negb (isRecording s) then last_timestamp_or_zero (events s)
  else now - startTime s.

End OverlayRecorder.

(* ------------------------------------------------------------------ *)
(** ** Capture: compositor, recorder, recorder hook (capture/recorder.ts) *)

Module Capture.

(** A Blob's bytes; [new Blob(chunks)] concatenates its parts. *)
Definition Blob := list Byte.byte.

Definition new_Blob (chunks : list Blob) : Blob := concat chunks.

(** Effects on the browser, in the order the code performs them. *)
Inductive effect :=
| ConsoleError
| RequestAnimationFrame (id : nat)
| CancelAnimationFrame (id : nat)
| DrawImage (sx sy sw sh : Q) (dx dy dw dh : Q)
| VideoPause
| VideoDetachSource                 (* video.srcObject = null *)
| TrackStop (track : nat)
| MediaRecorderStart (timeslice : Z)
| MediaRecorderStop.

(** *** createCroppedStream *)

(** [element.getBoundingClientRect()] *)
Record DOMRect := mkRect { left : Q; top : Q; width : Q; height : Q }.

(** What [drawFrame] reads from the page on a tick. *)
Record FrameInputs := mkInputs {
  videoWidth : Q;  videoHeight : Q;     (* size of the raw captured frame *)
  innerWidth : Q;  innerHeight : Q      (* viewport size *)
}.

Record Compositor := mkComp {
  crop_width : Q;           (* cropConfig.width *)
  crop_height : Q;          (* cropConfig.height *)
  isRunning : bool;
  animationId : nat;
  video_attached : bool;    (* video.srcObject is the source stream *)
  video_paused : bool
}.

(** JavaScript truthiness of a number: non-zero. *)
Definition truthy (q : Q) : bool := negb (Qeq_bool q 0).

(** The source rectangle of [drawFrame]. *)
Definition source_rect (c : Compositor) (rect : DOMRect) (fi : FrameInputs)
  : Q * Q * Q * Q :=
  let scaleX := videoWidth fi / innerWidth fi in
  let scaleY := videoHeight fi / innerHeight fi in
  let adLeft := left rect + (width rect - crop_width c) / 2 in
  let adTop := top rect + (height rect - crop_height c) / 2 in
  (adLeft * scaleX, adTop * scaleY, crop_width c * scaleX, crop_height c * scaleY).

(** One tick of [drawFrame]: [el] is what [getElement()] returns (the
    element's bounding rectangle, or [None] for null) and [rid] the id the
    browser hands back from [requestAnimationFrame]. *)
Definition drawFrame (el : option DOMRect) (fi : FrameInputs) (rid : nat)
    (c : Compositor) : Compositor * list effect :=
  if negb (isRunning c) then (c, [])
  else
    let c' := mkComp (crop_width c) (crop_height c) (isRunning c) rid
                (video_attached c) (video_paused c) in
    match el with
    | None => (c', [RequestAnimationFrame rid])
    | Some rect =>
        if truthy (videoWidth fi) && truthy (videoHeight fi) then
          let '(sx, sy, sw, sh) := source_rect c rect fi in
          (c', [DrawImage sx sy sw sh 0 0 (crop_width c) (crop_height c);
                RequestAnimationFrame rid])
        else (c', [RequestAnimationFrame rid])
    end.

(** [cleanup] of [createCroppedStream]. *)
Definition cleanup (c : Compositor) : Compositor * list effect :=
  (mkComp (crop_width c) (crop_height c) false (animationId c) false true,
   [CancelAnimationFrame (animationId c); VideoPause; VideoDetachSource]).

(** [combinedCleanup] of [requestScreenCapture]: [raw_tracks] is
    [rawStream.getTracks()]. *)
Definition combinedCleanup (raw_tracks : list nat) (c : Compositor)
  : Compositor * list effect :=
  let '(c', out) := cleanup c in
  (c', out ++ map TrackStop raw_tracks).

(** *** createRecorder *)

Record RecorderState := mkState {
  st_isRecording : bool;
  st_isPaused : bool;
  st_duration : Z
}.

Record Recorder := mkRec {
  chunks : list Blob;
  rec_startTime : Z;
  pausedDuration : Z;
  pauseStart : Z;
  state : RecorderState
}.

(** The recorder right after [createRecorder(stream)]. *)
Definition createRecorder : Recorder := mkRec [] 0 0 0 (mkState false false 0).

(** [mediaRecorder.ondataavailable] *)
Definition ondataavailable (data : Blob) (r : Recorder) : Recorder :=
  if (0 <? length data)%nat then
    mkRec (chunks r ++ [data]) (rec_startTime r) (pausedDuration r)
      (pauseStart r) (state r)
  else r.

(** [start()] at [Date.now() = now]. *)
Definition start (now : Z) (r : Recorder) : Recorder * list effect :=
  (mkRec [] now 0 (pauseStart r) (mkState true false (st_duration (state r))),
   [MediaRecorderStart 100]).

Definition pause (now : Z) (r : Recorder) : Recorder :=
  if st_isRecording (state r) && negb (st_isPaused (state r)) then
    mkRec (chunks r) (rec_startTime r) (pausedDuration r) now
      (mkState true true (st_duration (state r)))
  else r.

Definition resume (now : Z) (r : Recorder) : Recorder :=
  if st_isRecording (state r) && st_isPaused (state r) then
    mkRec (chunks r) (rec_startTime r) (pausedDuration r + (now - pauseStart r))%Z
      (pauseStart r) (mkState true false (st_duration (state r)))
  else r.

Inductive StopError := NoDataRecorded | RecordingError.

(** Settlement of the promise returned by [stop()]; [Pending] when neither
    [resolve] nor [reject] is ever called. *)
Inductive StopResult := Resolve (b : Blob) | Reject (e : StopError) | Pending.

(** The [onstop] handler installed by [stop()], run at [Date.now() = now]. *)
Definition onstop (now : Z) (r : Recorder) : Recorder * StopResult :=
  let r' := mkRec (chunks r) (rec_startTime r) (pausedDuration r) (pauseStart r)
              (mkState false false (now - rec_startTime r - pausedDuration r)%Z) in
  match chunks r with
  | [] => (r', Reject NoDataRecorded)
  | _ :: _ => (r', Resolve (new_Blob (chunks r)))
  end.

(** Operations reaching a recorder state, from the browser and the caller. *)
Inductive RecOp :=
| OpStart (now : Z)
| OpData (data : Blob)
| OpPause (now : Z)
| OpResume (now : Z).

Definition step (op : RecOp) (r : Recorder) : Recorder :=
  match op with
  | OpStart now => fst (start now r)
  | OpData d => ondataavailable d r
  | OpPause now => pause now r
  | OpResume now => resume now r
  end.

Definition run_ops (ops : list RecOp) (r : Recorder) : Recorder :=
  fold_left (fun acc op => step op acc) ops r.

(** [stop()]: [mediaRecorder.stop()] on an active recorder first flushes
    the buffered data ([final_data], possibly empty) through
    [ondataavailable], then fires [onstop].  [rec_error] says whether the
    recorder fires its [error] event, which comes before [stop]: then
    [onerror] rejects first, and the later [reject]/[resolve] of [onstop]
    have no effect on the promise.  On an inactive recorder (never
    started: [state.isRecording] is still false) [mediaRecorder.stop()]
    does nothing, so no handler runs and the promise stays pending. *)
Definition stop (final_data : Blob) (rec_error : bool) (now : Z) (r : Recorder)
  : Recorder * list effect * StopResult :=
  if negb (st_isRecording (state r)) then (r, [MediaRecorderStop], Pending)
  else
    let '(r', res) := onstop now (ondataavailable final_data r) in
    (r', [MediaRecorderStop], if rec_error then Reject RecordingError else res).

(** *** useRecorder: beginPreparedRecording *)

Record Hook := mkHook {
  recorderRef : option Recorder;
  isPreparedRef : bool;
  isPrepared : bool;        (* React state mirrored from the ref *)
  hook_isRecording : bool   (* state.isRecording of the hook *)
}.

Definition beginPreparedRecording (now : Z) (h : Hook) : Hook * list effect :=
  match recorderRef h with
  | None => (h, [ConsoleError])
  | Some r =>
      if negb (isPreparedRef h) then (h, [ConsoleError])
      else
        let '(r', out) := start now r in
        (mkHook (Some r') false false true, out)
  end.

End Capture.

(* ------------------------------------------------------------------ *)
(** ** The page's handleReloadAndRecord *)

Module Orchestrator.

Inductive effect :=
| SetIsStartingCapture (b : bool)
| PrepareRecording              (* await recorder.prepareRecording(cropConfig) *)
| SetCountdown (v : option nat)
| Sleep (ms : nat)              (* await setTimeout(resolve, ms) *)
| SetIsAdReady (b : bool)
| ReloadPreview                 (* setPreviewKey(k => k + 1) *)
| BeginPreparedRecording
| ConsoleError.

(** [for (let i = n; i >= 1; i--) { setCountdown(i); await sleep(1000) }] *)
Fixpoint countdown (i : nat) : list effect :=
  match i with
  | O => []
  | S k => SetCountdown (Some i) :: Sleep 1000 :: countdown k
  end.

(** [loadedTag] is whether a tag is loaded; [prepare_ok] whether
    [prepareRecording] resolves (it rejects when permission is refused or
    recording is unsupported). *)
Definition handleReloadAndRecord (loadedTag prepare_ok : bool) : list effect :=
  if negb loadedTag then []
  else
    SetIsStartingCapture true :: PrepareRecording ::
    (if prepare_ok then
       countdown 3 ++
       [SetCountdown None; SetIsAdReady false; ReloadPreview; BeginPreparedRecording]
     else [ConsoleError; SetCountdown None]) ++
    [SetIsStartingCapture false].

(** The steps of the sequence: prepare, countdown ticks, reload, begin. *)
Definition is_step (f : effect) : bool :=
  match f with
  | PrepareRecording | SetCountdown (Some _) | ReloadPreview
  | BeginPreparedRecording => true
  | _ => false
  end.

End Orchestrator.

(* ------------------------------------------------------------------ *)
(** ** More of the recorders, the replayer and the capture hook *)

(** [getState()] of [createRecorder]. *)
Definition Capture_getState (now : Z) (r : Capture.Recorder) : Capture.RecorderState :=
  let st := Capture.state r in
  Capture.mkState (Capture.st_isRecording st) (Capture.st_isPaused st)
    (if Capture.st_isRecording st
     then (now - Capture.rec_startTime r - Capture.pausedDuration r)%Z
     else Capture.st_duration st).

(** The event handlers of [EventRecorder] ([createHandler] and
    [createInteractionEvent]). *)
Module RecorderHandlers.

(** The DOM event a handler receives: [instanceof MouseEvent],
    [instanceof TouchEvent] (with the primary touch, [touches[0] ||
    changedTouches[0]], if any) or another event (a document scroll). *)
Inductive DomEvent :=
| MouseEv (clientX clientY : Z) (target : option String.string)
| TouchEv (primary : option (Z * Z)) (target : option String.string)
| PlainEv.

(** The recorder together with [lastMouseMoveTime], which [start] does not
    reset. *)
Record session := mkSession {
  rec : EventRecorder.t;
  lastMouseMoveTime : Q
}.

Definition MOUSEMOVE_THROTTLE : Q := 16.

Definition createInteractionEvent (ty : InteractionEventType) (ev : DomEvent)
    (ts : Q) : option InteractionEvent :=
  match ev with
  | MouseEv x y tg => Some (mkEvent ty (math_round ts) x y tg)
  | TouchEv p tg =>
      let '(x, y) := match p with Some xy => xy | None => (0, 0)%Z end in
      Some (mkEvent ty (math_round ts) x y tg)
  | PlainEv =>
      match ty with
      | scroll => Some (mkEvent ty (math_round ts) 0 0 None)
      | _ => None
      end
  end.

Definition is_mousemove (ty : InteractionEventType) : bool :=
  match ty with mousemove => true | _ => false end.

(** The handler for [eventType = ty] receiving [ev] at [performance.now() = now]. *)
Definition handle (ty : InteractionEventType) (ev : DomEvent) (now : Q)
    (s : session) : session :=
  let r := rec s in
  if negb (EventRecorder.isRecording r) then s
  else
    let ts := now - EventRecorder.startTime r in
    let thr :=
      if is_mousemove ty then
        if negb (Qle_bool MOUSEMOVE_THROTTLE (ts - lastMouseMoveTime s)) then None
        else Some ts
      else Some (lastMouseMoveTime s) in
    match thr with
    | None => s
    | Some last =>
        match createInteractionEvent ty ev ts with
        | Some e => mkSession (EventRecorder.record e r) last
        | None => mkSession r last
        end
    end.

(** [start(iframe)] on the session. *)
Definition start (doc : bool) (now : Q) (s : session) : session * bool :=
  let '(r, ok) := EventRecorder.start doc now (rec s) in
  (mkSession r (lastMouseMoveTime s), ok).

Definition run (calls : list (InteractionEventType * DomEvent * Q)) (s : session)
  : session :=
  fold_left (fun acc c => let '(ty, ev, now) := c in handle ty ev now acc) calls s.

(** Timestamps of the recorded mousemove events, in order. *)
Definition mousemove_timestamps (evs : list InteractionEvent) : list Z :=
  map timestamp (filter (fun e => is_mousemove (ev_type e)) evs).

(** Two timestamps at least [MOUSEMOVE_THROTTLE] apart. *)
Definition gap16 (a b : Z) : Prop := (a + 16 <= b)%Z.

(** The [performance.now()] times of a sequence of handler calls. *)
Definition call_times (calls : list (InteractionEventType * DomEvent * Q)) : list Q :=
  map (fun c => snd c) calls.

End RecorderHandlers.

(** [stop()], [getProgress()] and [getDuration()] of [EventReplayer]. *)
Module ReplayerOps.
Import Replayer.

Definition stop (s : EventReplayer) : EventReplayer :=
  mkReplayer (events s) false (startTime s) (currentIndex s) false.

Definition getProgress (s : EventReplayer) : nat * nat :=
  (currentIndex s, length (events s)).

Definition getDuration (s : EventReplayer) : Q := last_timestamp_or_zero (events s).

Fixpoint count_complete (out : list effect) : nat :=
  match out with
  | [] => 0
  | OnComplete :: out' => S (count_complete out')
  | _ :: out' => count_complete out'
  end.

Fixpoint progress_reports (out : list effect) : list nat :=
  match out with
  | [] => []
  | OnProgress c _ :: out' => c :: progress_reports out'
  | _ :: out' => progress_reports out'
  end.

End ReplayerOps.

(** Views on sequences of recorder operations. *)
Module RecOpsView.

Definition is_start (op : Capture.RecOp) : bool :=
  match op with Capture.OpStart _ => true | _ => false end.

(** The data handed to [ondataavailable] by the operations, in order. *)
Definition data_of (ops : list Capture.RecOp) : list Capture.Blob :=
  flat_map (fun op => match op with Capture.OpData d => [d] | _ => [] end) ops.

(** Successive [pause(p)] / [resume(q)] pairs. *)
Fixpoint pauses (ps : list (Z * Z)) (r : Capture.Recorder) : Capture.Recorder :=
  match ps with
  | [] => r
  | (p, q) :: ps' => pauses ps' (Capture.resume q (Capture.pause p r))
  end.

(** The total length of the pause intervals. *)
Definition paused_total (ps : list (Z * Z)) : Z :=
  fold_right (fun pq acc => (snd pq - fst pq + acc)%Z) 0%Z ps.

End RecOpsView.

(* ------------------------------------------------------------------ *)
(** ** Sample inputs *)

(** The overlay recorder's pointer handlers (celtra.ts), with the fields
    [lastMouseX], [lastMouseY], [width] and [height], which [start] sets
    (the size) or leaves alone (the last mouse position). *)
Module OverlayHandlers.

Record session := mkOv {
  ov : OverlayRecorder.t;
  lastMouseX : Q;
  lastMouseY : Q;
  width : Q;
  height : Q
}.

(** A new [OverlayRecorder()]. *)
Definition initial : session :=
  mkOv (OverlayRecorder.mk [] 0 false false false) 0 0 0 0.

(** [start({container, width, height})]; [has_iframe] is whether the
    container holds an iframe. *)
Definition start (has_iframe : bool) (w h now : Q) (s : session) : session * bool :=
  let '(r, ok) := OverlayRecorder.start has_iframe now (ov s) in
  if ok then (mkOv r (lastMouseX s) (lastMouseY s) w h, true)
  else (mkOv r (lastMouseX s) (lastMouseY s) (width s) (height s), false).

Definition stop (s : session) : session * list InteractionEvent :=
  let '(r, evs) := OverlayRecorder.stop (ov s) in
  (mkOv r (lastMouseX s) (lastMouseY s) (width s) (height s), evs).

(** [onMouseMove] for a mouse at [(clientX, clientY)], the iframe's bounding
    rectangle having its top-left corner at [(left, top)]. *)
Definition onMouseMove (clientX clientY left top : Q) (s : session) : session :=
  let r := ov s in
  if negb (OverlayRecorder.isRecording r) || negb (OverlayRecorder.iframe r) then s
  else
    let x := clientX - left in
    let y := clientY - top in
    let over := Qle_bool 0 x && Qle_bool 0 y &&
                Qle_bool x (width s) && Qle_bool y (height s) in
    let r' := OverlayRecorder.mk (OverlayRecorder.events r) (OverlayRecorder.startTime r)
                (OverlayRecorder.isRecording r) (OverlayRecorder.iframe r) over in
    if over then mkOv r' x y (width s) (height s)
    else mkOv r' (lastMouseX s) (lastMouseY s) (width s) (height s).

(** [onWindowBlur] at [performance.now() = now]: [recordEvent] rounds the
    last mouse position. *)
Definition onWindowBlur (now : Q) (s : session) : session :=
  mkOv (OverlayRecorder.onWindowBlur now (math_round (lastMouseX s))
          (math_round (lastMouseY s)) (ov s))
    (lastMouseX s) (lastMouseY s) (width s) (height s).

(** [onTouchStart] followed by [recordTouchEvent("touchstart", ...)];
    [touch] is [event.touches[0]]'s client position, if any. *)
Definition onTouchStart (now : Q) (touch : option (Q * Q)) (left top : Q)
    (s : session) : session :=
  let r := ov s in
  if negb (OverlayRecorder.isRecording r) || negb (OverlayRecorder.iframe r) then s
  else match touch with
  | None => s
  | Some (cx, cy) =>
      let x := cx - left in
      let y := cy - top in
      if negb (Qle_bool 0 x) || negb (Qle_bool 0 y) ||
         negb (Qle_bool x (width s)) || negb (Qle_bool y (height s)) then s
      else
        let e := mkEvent touchstart (math_round (now - OverlayRecorder.startTime r))
                   (math_round x) (math_round y) None in
        mkOv (OverlayRecorder.mk (OverlayRecorder.events r ++ [e])
                (OverlayRecorder.startTime r) (OverlayRecorder.isRecording r)
                (OverlayRecorder.iframe r) (OverlayRecorder.isMouseOverAd r))
          (lastMouseX s) (lastMouseY s) (width s) (height s)
  end.

(** The listeners' calls, in order. *)
Inductive call :=
| MouseMove (clientX clientY left top : Q)
| WindowBlur (now : Q)
| TouchStart (now : Q) (touch : option (Q * Q)) (left top : Q).

Definition handle (c : call) (s : session) : session :=
  match c with
  | MouseMove cx cy l t => onMouseMove cx cy l t s
  | WindowBlur now => onWindowBlur now s
  | TouchStart now tch l t => onTouchStart now tch l t s
  end.

Definition run (calls : list call) (s : session) : session :=
  fold_left (fun acc c => handle c acc) calls s.

(** An event whose position lies in the ad's [w] by [h] box, both
    rounded. *)
Definition in_box (w h : Q) (e : InteractionEvent) : Prop :=
  (0 <= ev_x e <= math_round w)%Z /\ (0 <= ev_y e <= math_round h)%Z.

End OverlayHandlers.

(** [captureScreenshot] (capture/recorder.ts) and the hook's
    [stopRecording] (useRecorder). *)
Module CaptureMore.
Import Capture.

(** Settlement of the promise of [captureScreenshot]: the blob with
    [canvas.width] and [canvas.height], or a rejection. *)
Inductive ShotResult := ShotOk (b : Blob) (w h : N) | ShotErr.

(** [captureScreenshot({element, width, height})]: [stream] is what
    [getDisplayMedia] resolves to (the stream's tracks), [None] when it
    rejects; [loaded] is whether the video's [loadedmetadata] fires (the
    promise awaiting it has no other way to settle); [rect] is
    [element.getBoundingClientRect()], [fi] the video and viewport sizes and
    [toBlob] what [canvas.toBlob] hands its callback. The canvas takes the
    [width] and [height] given, whole numbers. The result is [None] while
    the promise is pending. *)
Definition captureScreenshot (stream : option (list nat)) (loaded : bool)
    (rect : DOMRect) (fi : FrameInputs) (width height : N) (toBlob : option Blob)
  : list effect * option ShotResult :=
  match stream with
  | None => ([], Some ShotErr)
  | Some tracks =>
      if negb loaded then ([], None)
      else
        let w := inject_Z (Z.of_N width) in
        let h := inject_Z (Z.of_N height) in
        let scaleX := videoWidth fi / innerWidth fi in
        let scaleY := videoHeight fi / innerHeight fi in
        let adLeft := left rect + (Capture.width rect - w) / 2 in
        let adTop := top rect + (Capture.height rect - h) / 2 in
        let sx := adLeft * scaleX in
        let sy := adTop * scaleY in
        let sw := w * scaleX in
        let sh := h * scaleY in
        let out := DrawImage sx sy sw sh 0 0 w h :: map TrackStop tracks in
        match toBlob with
        | Some b => (out, Some (ShotOk b width height))
        | None => (out, Some ShotErr)
        end
  end.







End CaptureMore.

(** [dispatchEvent] of [EventReplayer] (event-recorder.ts): the DOM events
    a replayed event becomes. The fields of an [InteractionEvent] that the
    record above leaves out ([button], [touches], [scrollTop],
    [scrollLeft]) are passed alongside. *)
Module ReplayDispatch.
Import String.StringSyntax.
Local Open Scope string_scope.

(** [event.type] as a string. *)
Definition type_name (t : InteractionEventType) : String.string :=
  match t with
  | click => "click" | mousedown => "mousedown" | mouseup => "mouseup"
  | mousemove => "mousemove" | touchstart => "touchstart"
  | touchmove => "touchmove" | touchend => "touchend" | scroll => "scroll"
  end.

(** [s.replace(pat, rep)] with a string pattern: the first occurrence of
    [pat] is replaced, if any. *)
Fixpoint replace_first (pat rep s : String.string) : String.string :=
  if String.prefix pat s then
    String.append rep (String.substring (String.length pat)
                         (String.length s - String.length pat) s)
  else match s with
  | String.EmptyString => String.EmptyString
  | String.String c s' => String.String c (replace_first pat rep s')
  end.

(** A touch point: [identifier], [clientX], [clientY]. *)
Definition Touch : Type := Z * Z * Z.

Inductive dom_event :=
| DMouse (name : String.string) (x y button buttons : Z)
| DPointer (name : String.string) (x y button buttons : Z) (pointerType : String.string)
| DTouch (name : String.string) (touches targetTouches changedTouches : list Touch)
| DEvent (name : String.string).

Inductive replay_effect :=
| Dispatch (ev : dom_event)
| SetScroll (documentLevel : bool) (scrollTop scrollLeft : option Z)
| ConsoleWarn.      (* console.warn in the catch of [dispatchEvent] *)

(** Which of the event constructors the page provides: [new PointerEvent],
    [new Touch] and [new TouchEvent] throw where they are missing (the
    latter two outside touch-enabled browsers); [MouseEvent] and [Event]
    are always there. *)
Record Ctors := mkCtors {
  has_PointerEvent : bool;
  has_Touch : bool;
  has_TouchEvent : bool
}.

(** The dispatch helpers return the effects performed and whether an
    exception escaped after them. *)
Definition dispatchMouseEvent (api : Ctors) (e : InteractionEvent) (button : option Z)
  : list replay_effect * bool :=
  let b := match button with Some b => b | None => 0%Z end in
  let bs := match ev_type e with mousedown => 1%Z | _ => 0%Z end in
  let mouse := Dispatch (DMouse (type_name (ev_type e)) (ev_x e) (ev_y e) b bs) in
  if has_PointerEvent api then
    ([mouse;
      Dispatch (DPointer (replace_first "mouse" "pointer" (type_name (ev_type e)))
                  (ev_x e) (ev_y e) b bs "mouse")], false)
  else ([mouse], true).

(** [touches] is [event.touches] (points [(identifier?, x, y)]), if set. *)
Definition dispatchTouchEvent (api : Ctors) (e : InteractionEvent)
    (touches : option (list (option Z * Z * Z))) : list replay_effect * bool :=
  let pts := match touches with
             | Some ts => ts
             | None => [(None, ev_x e, ev_y e)]
             end in
  let touchList :=
    map (fun '(i, (id, x, y)) =>
           (match id with Some k => k | None => Z.of_nat i end, x, y))
        (combine (seq 0 (length pts)) pts) in
  let active := match ev_type e with
                | touchstart | touchmove => touchList
                | _ => []
                end in
  let pointerType := match ev_type e with
                     | touchstart => "pointerdown"
                     | touchend => "pointerup"
                     | _ => "pointermove"
                     end in
  (* [touches.map(... new Touch(...))] calls the constructor once per point *)
  if negb (has_Touch api) && (0 <? length pts)%nat then ([], true)
  else if negb (has_TouchEvent api) then ([], true)
  else
    let touch := Dispatch (DTouch (type_name (ev_type e)) active active touchList) in
    if has_PointerEvent api then
      (* PointerEventInit leaves [button] and [buttons] at their defaults *)
      ([touch; Dispatch (DPointer pointerType (ev_x e) (ev_y e) 0 0 "touch")], false)
    else ([touch], true).

(** [doc_target] is whether the target found is the document's body or
    root element. *)
Definition dispatchScrollEvent (scrollTop scrollLeft : option Z) (doc_target : bool)
  : list replay_effect :=
  app match scrollTop, scrollLeft with
      | None, None => []
      | _, _ => [SetScroll doc_target scrollTop scrollLeft]
      end
    [Dispatch (DEvent "scroll")].

(** [dispatchEvent(event)]; [doc] is [this.targetDocument !== null].  An
    exception of the helpers is caught and warned about. *)
Definition dispatchEvent (api : Ctors) (doc : bool) (e : InteractionEvent)
    (button : option Z) (touches : option (list (option Z * Z * Z)))
    (scrollTop scrollLeft : option Z) (doc_target : bool) : list replay_effect :=
  if negb doc then []
  else
    let '(out, threw) :=
      match ev_type e with
      | click | mousedown | mouseup | mousemove => dispatchMouseEvent api e button
      | touchstart | touchmove | touchend => dispatchTouchEvent api e touches
      | scroll => (dispatchScrollEvent scrollTop scrollLeft doc_target, false)
      end in
    app out (if threw then [ConsoleWarn] else []).

(** The names of the DOM events dispatched. *)
Definition dispatched_names (out : list replay_effect) : list String.string :=
  flat_map (fun f => match f with
                     | Dispatch (DMouse n _ _ _ _) | Dispatch (DPointer n _ _ _ _ _)
                     | Dispatch (DTouch n _ _ _) | Dispatch (DEvent n) => [n]
                     | SetScroll _ _ _ | ConsoleWarn => []
                     end) out.

End ReplayDispatch.

(** [handleBatchScreenshot] of the page (part_001): one screenshot per
    batch size, zipped. *)
Module Batch.
Import String.StringSyntax.
Local Open Scope string_scope.

Record BatchSize := mkSize { bw : N; bh : N; label : String.string }.

(** A zip entry [{filename: `screenshot-${w}x${h}.png`, blob}], kept as the
    size it names and the blob. *)
Definition ZipEntry : Type := N * N * Capture.Blob.

Inductive effect :=
| SetIsCapturing (b : bool)
| SetBatchProgress (p : option (nat * nat * String.string))
| SetWidth (w : N)
| SetHeight (h : N)
| Sleep (ms : nat)
| CaptureScreenshot (w h : N)
| CreateZip (files : list ZipEntry)
| DownloadZip (zip : Capture.Blob)
| ConsoleError.

(** The [for] loop from index [i] of [total]; [shot sz] is how
    [captureScreenshot] settles for size [sz] (its blob, or [None] when it
    rejects). The second component is the [files] array, or [None] when a
    capture threw out of the loop. *)
Fixpoint batch_loop (i total : nat) (sizes : list BatchSize)
    (shot : BatchSize -> option Capture.Blob) : list effect * option (list ZipEntry) :=
  match sizes with
  | [] => ([], Some [])
  | sz :: rest =>
      let pre := [SetBatchProgress (Some (S i, total, label sz));
                  SetWidth (bw sz); SetHeight (bh sz); Sleep 500;
                  CaptureScreenshot (bw sz) (bh sz)] in
      match shot sz with
      | None => (pre, None)
      | Some b =>
          let '(out, files) := batch_loop (S i) total rest shot in
          (pre ++ Sleep 100 :: out, option_map (cons (bw sz, bh sz, b)) files)
      end
  end.

(** [handleBatchScreenshot()]: [has_container] is whether
    [previewContainerRef.current] is set, [(width, height)] the size before
    the batch and [zip files] how [createZipArchive(files)] settles. *)
Definition handleBatchScreenshot (has_container : bool) (sizes : list BatchSize)
    (width height : N) (shot : BatchSize -> option Capture.Blob)
    (zip : list ZipEntry -> option Capture.Blob) : list effect :=
  if negb has_container || (length sizes =? 0)%nat then []
  else
    let total := length sizes in
    let '(loop_out, files) := batch_loop 0 total sizes shot in
    let body :=
      match files with
      | None => loop_out ++ [ConsoleError]
      | Some fs =>
          loop_out ++ SetBatchProgress (Some (total, total, "Creating zip...")) ::
          CreateZip fs ::
          match zip fs with
          | Some z => [DownloadZip z]
          | None => [ConsoleError]
          end
      end in
    SetIsCapturing true :: body ++
    [SetWidth width; SetHeight height; SetBatchProgress None; SetIsCapturing false].

Definition is_create_zip (f : effect) : bool :=
  match f with CreateZip _ => true | _ => false end.

(** The sizes captured, in order. *)
Definition captured (out : list effect) : list (N * N) :=
  flat_map (fun f => match f with CaptureScreenshot w h => [(w, h)] | _ => [] end) out.

End Batch.

Module Sample.

(** Three clicks captured out of order, at 500 ms, 0 ms and 250 ms. *)
Definition click_at (ts : Z) : InteractionEvent := mkEvent click ts 150 125 None.

Definition trace3 : list InteractionEvent :=
  [click_at 500; click_at 0; click_at 250].

(** A replayer playing [trace3] from time 0 against an accessible document. *)
Definition playing3 : Replayer.EventReplayer :=
  Replayer.mkReplayer (sort_by_timestamp trace3) true 0 0 true.

(** A replay of one late event is started at time 0, then [loadEvents([])]
    is called while it is still playing. *)
Definition playing_then_emptied : Replayer.EventReplayer :=
  let '(s1, _, _) :=
    Replayer.play true 0 (Replayer.loadEvents [click_at 1000] Replayer.initial) in
  Replayer.loadEvents [] s1.

(** Stopped recorders. *)
Definition stopped_event_recorder : EventRecorder.t :=
  EventRecorder.mk [click_at 0; click_at 250] 10 false false.

Definition stopped_overlay_recorder : OverlayRecorder.t :=
  OverlayRecorder.mk [] 10 false false false.

(** A running 300x250 compositor on a 1920x1080 capture of a 960x540
    viewport. *)
Definition comp_300x250 : Capture.Compositor :=
  Capture.mkComp 300 250 true 4 true false.

Definition frame_2x : Capture.FrameInputs := Capture.mkInputs 1920 1080 960 540.

(** A 340x290 preview element at (100, 100), fully inside the viewport. *)
Definition rect_inside : Capture.DOMRect := Capture.mkRect 100 100 340 290.



(** An idle interaction recorder, and pointer activity starting at
    [performance.now()] = 1000 ms: mousemoves 0, 20, 30 and 40 ms in, then a
    click; the throttle keeps the moves at 20 and 40 ms. *)
Definition idle_session : RecorderHandlers.session :=
  RecorderHandlers.mkSession (EventRecorder.mk [] 0 false false) 0.

Definition pointer_calls : list (InteractionEventType * RecorderHandlers.DomEvent * Q) :=
  [(mousemove, RecorderHandlers.MouseEv 10 10 None, 1000);
   (mousemove, RecorderHandlers.MouseEv 12 10 None, 1020);
   (mousemove, RecorderHandlers.MouseEv 14 10 None, 1030);
   (mousemove, RecorderHandlers.MouseEv 16 10 None, 1040);
   (click, RecorderHandlers.MouseEv 16 10 None, 1050)].

(** Overlay recording of a 300 by 250 ad whose iframe sits at (10, 20):
    a mouse move over it, a click seen as a window blur, a touch off the ad
    and one on it. *)
Definition overlay_calls : list OverlayHandlers.call :=
  [OverlayHandlers.MouseMove 150 120 10 20;
   OverlayHandlers.WindowBlur 1500;
   OverlayHandlers.TouchStart 1600 (Some (400, 30)) 10 20;
   OverlayHandlers.TouchStart 1700 (Some (50, 60)) 10 20].

(** A stopped overlay recorder that last saw the mouse over a 300 by 250
    ad at (250, 200). *)
Definition overlay_stopped_over : OverlayHandlers.session :=
  OverlayHandlers.mkOv (OverlayRecorder.mk [] 0 false false true) 250 200 300 250.

(** A batch of two ad sizes. *)
Import String.StringSyntax.
Local Open Scope string_scope.

Definition batch_sizes : list Batch.BatchSize :=
  [Batch.mkSize 300 250 "Medium Rectangle"; Batch.mkSize 728 90 "Leaderboard"].

End Sample.

(* ================================================================== *)
(** * Properties *)

(** ** Sorting by timestamp *)

Lemma insert_by_ts_perm (e : InteractionEvent) (l : list InteractionEvent) :
  Permutation (e :: l) (insert_by_ts e l).
Proof.
  induction l as [|x l IH]; simpl; [reflexivity|].
  destruct (timestamp e <=? timestamp x)%Z; [reflexivity|].
  rewrite perm_swap. now constructor.
Qed.

Lemma insert_by_ts_sorted (e : InteractionEvent) (l : list InteractionEvent) :
  Sorted ts_le l -> Sorted ts_le (insert_by_ts e l).
Proof.
  unfold ts_le. induction 1 as [|x l Hs IH Hhd]; simpl.
  - repeat constructor.
  - destruct (timestamp e <=? timestamp x)%Z eqn:Hex.
    + apply Z.leb_le in Hex. repeat constructor; assumption.
    + apply Z.leb_gt in Hex. constructor; [exact IH|].
      destruct l as [|y l]; simpl.
      * constructor. lia.
      * inversion Hhd; subst.
        destruct (timestamp e <=? timestamp y)%Z; constructor; lia.
Qed.

Lemma sort_by_timestamp_perm (l : list InteractionEvent) :
  Permutation l (sort_by_timestamp l).
Proof.
  induction l as [|x l IH]; simpl; [constructor|].
  rewrite <- insert_by_ts_perm. now constructor.
Qed.

Lemma sort_by_timestamp_sorted (l : list InteractionEvent) :
  Sorted ts_le (sort_by_timestamp l).
Proof.
  induction l; simpl; [constructor|]. now apply insert_by_ts_sorted.
Qed.

(** [C4]: loading a trace into the replayer stores its events as a
    permutation of the input sorted by non-decreasing timestamp, and
    rewinds the cursor, whatever the order of the input. *)
Theorem loadEvents_sorted_permutation (evs : list InteractionEvent)
    (s : Replayer.EventReplayer) :
  let s' := Replayer.loadEvents evs s in
  Sorted ts_le (Replayer.events s') /\ Permutation evs (Replayer.events s') /\
  Replayer.currentIndex s' = 0%nat.
Proof.
  simpl. split; [apply sort_by_timestamp_sorted|].
  split; [apply sort_by_timestamp_perm | reflexivity].
Qed.

(** ** The replayer's scheduling loop *)

Module ReplayerFacts.
Import Replayer.

Lemma ts_le_trans : Relations_1.Transitive ts_le.
Proof. unfold Relations_1.Transitive, ts_le. intros; lia. Qed.

Lemma sorted_skipn (n : nat) (l : list InteractionEvent) :
  Sorted ts_le l -> Sorted ts_le (skipn n l).
Proof.
  revert l; induction n as [|n IH]; intros [|x l] H; simpl; auto.
  apply IH. now inversion H.
Qed.

Lemma sorted_firstn (n : nat) (l : list InteractionEvent) :
  Sorted ts_le l -> Sorted ts_le (firstn n l).
Proof.
  revert l; induction n as [|n IH]; intros [|x l] H; simpl; auto.
  inversion H as [|? ? Hs Hhd]; subst. constructor; [now apply IH|].
  destruct n, l; simpl; constructor. now inversion Hhd.
Qed.

Lemma not_due_after (el : Q) (e x : InteractionEvent) :
  due el e = false -> ts_le e x -> due el x = false.
Proof.
  unfold due, ts_le. intros He Hx.
  destruct (Qle_bool (inject_Z (timestamp x)) el) eqn:Hd; [|reflexivity].
  apply Qle_bool_iff in Hd. rewrite Zle_Qle in Hx.
  assert (Hle : inject_Z (timestamp e) <= el) by (eapply Qle_trans; eauto).
  apply Qle_bool_iff in Hle. congruence.
Qed.

(** The [while] loop over a sorted suffix dispatches exactly the due
    events, which form a prefix of the suffix, and advances the cursor by
    their number. *)
Lemma dispatch_while_spec (el : Q) (rest : list InteractionEvent) (idx total : nat) :
  Sorted ts_le rest ->
  let '(idx', out) := dispatch_while el rest idx total in
  dispatched out = filter (due el) rest /\
  dispatched out = firstn (idx' - idx) rest /\
  (idx <= idx' <= idx + length rest)%nat.
Proof.
  revert idx; induction rest as [|e rest IH]; intros idx Hs; simpl.
  - rewrite Nat.sub_diag. repeat split; lia.
  - inversion Hs as [|? ? Hs' Hhd]; subst.
    fold (due el e).
    destruct (due el e) eqn:He.
    + specialize (IH (S idx) Hs').
      destruct (dispatch_while el rest (S idx) total) as [idx' out].
      destruct IH as (H1 & H2 & H3). simpl.
      replace (idx' - idx)%nat with (S (idx' - S idx)) by lia. simpl.
      rewrite <- H1, <- H2. repeat split; auto; lia.
    + simpl. rewrite Nat.sub_diag. simpl.
      assert (Hall : filter (due el) rest = []).
      { apply Sorted_StronglySorted in Hs; [|exact ts_le_trans].
        inversion Hs as [|? ? _ Hfa]; subst.
        clear - He Hfa. induction Hfa as [|x l Hx _ IHl]; simpl; auto.
        rewrite (not_due_after el e x He Hx). exact IHl. }
      rewrite Hall. repeat split; lia.
Qed.

Lemma replayLoop_events (now : Q) (s : EventReplayer) :
  events (fst (replayLoop now s)) = events s.
Proof.
  unfold replayLoop.
  destruct (negb (isPlaying s) || negb (targetDocument s)); [reflexivity|].
  destruct (dispatch_while _ _ _ _) as [idx out].
  destruct (length (events s) <=? idx)%nat; reflexivity.
Qed.

(** One tick, in terms of the cursor: either nothing happens, or the loop
    runs over [events.slice(currentIndex)]. *)
Lemma replayLoop_tick (now : Q) (s : EventReplayer) :
  Sorted ts_le (events s) ->
  let '(s', out) := replayLoop now s in
  (out = [] /\ s' = s) \/
  (isPlaying s = true /\ targetDocument s = true /\
   dispatched out = filter (due (now - startTime s)) (skipn (currentIndex s) (events s)) /\
   dispatched out = firstn (currentIndex s' - currentIndex s)
                      (skipn (currentIndex s) (events s)) /\
   (currentIndex s <= currentIndex s' <=
      currentIndex s + length (skipn (currentIndex s) (events s)))%nat).
Proof.
  intros Hs. unfold replayLoop.
  destruct (isPlaying s) eqn:Hp, (targetDocument s) eqn:Ht; simpl;
    try (left; split; reflexivity).
  pose proof (dispatch_while_spec (now - startTime s)
                (skipn (currentIndex s) (events s)) (currentIndex s)
                (length (events s)) (sorted_skipn _ _ Hs)) as Hd.
  destruct (dispatch_while _ _ _ _) as [idx out].
  destruct Hd as (H1 & H2 & H3).
  assert (Hdo : forall tl, dispatched (out ++ tl) = dispatched out ++ dispatched tl).
  { clear. induction out as [|[] out IH]; intros; simpl; f_equal; auto. }
  destruct (length (events s) <=? idx)%nat; simpl; right;
    rewrite Hdo; simpl; rewrite app_nil_r; repeat split; auto; lia.
Qed.

Lemma firstn_app_skipn (n k : nat) (l : list InteractionEvent) :
  firstn n l ++ firstn k (skipn n l) = firstn (n + k) l.
Proof.
  revert l; induction n as [|n IH]; intros [|x l]; simpl; auto.
  - now rewrite firstn_nil.
  - now rewrite IH.
Qed.

Lemma dispatched_app (o1 o2 : list effect) :
  dispatched (o1 ++ o2) = dispatched o1 ++ dispatched o2.
Proof. induction o1 as [|[] o1 IH]; simpl; f_equal; auto. Qed.

(** A tick extends the dispatched prefix of the event list. *)
Lemma replayLoop_prefix (now : Q) (s : EventReplayer) :
  Sorted ts_le (events s) ->
  let '(s', out) := replayLoop now s in
  firstn (currentIndex s) (events s) ++ dispatched out =
  firstn (currentIndex s') (events s).
Proof.
  intros Hs. pose proof (replayLoop_tick now s Hs) as Ht.
  destruct (replayLoop now s) as [s' out].
  destruct Ht as [[-> ->] | (_ & _ & _ & H2 & H3)].
  - apply app_nil_r.
  - rewrite H2, firstn_app_skipn. f_equal. lia.
Qed.

Lemma run_ticks_prefix (times : list Q) (s : EventReplayer) :
  Sorted ts_le (events s) ->
  let '(s', out) := run_ticks times s in
  events s' = events s /\
  firstn (currentIndex s) (events s) ++ dispatched out =
  firstn (currentIndex s') (events s).
Proof.
  revert s; induction times as [|t times IH]; intros s Hs; simpl.
  - split; [reflexivity | apply app_nil_r].
  - pose proof (replayLoop_prefix t s Hs) as H1.
    pose proof (replayLoop_events t s) as He.
    destruct (replayLoop t s) as [s1 out1]. simpl in He.
    rewrite <- He in Hs. specialize (IH s1 Hs).
    destruct (run_ticks times s1) as [s2 out2].
    destruct IH as [He2 H2]. rewrite He in He2, H2.
    split; [exact He2|].
    rewrite dispatched_app, app_assoc, H1. exact H2.
Qed.

End ReplayerFacts.

(** [C2]: for a trace loaded with [loadEvents], a tick of the scheduling
    loop of a playing replayer dispatches every not yet dispatched event
    whose timestamp is at most the elapsed time, all in that same tick, in
    trace order and with non-decreasing timestamps; and over any sequence
    of ticks the dispatched events are, in dispatch order, exactly the
    trace's events [0 .. currentIndex - 1] one after the other, so event
    [i] is dispatched before event [i + 1]. *)
Theorem replayLoop_dispatches_due_events_in_order
    (evs : list InteractionEvent) (s : Replayer.EventReplayer) (now : Q)
    (times : list Q)
    (Hload : Replayer.events s = sort_by_timestamp evs)
    (Hplay : Replayer.isPlaying s = true)
    (Hdoc : Replayer.targetDocument s = true) :
  (let '(s1, out) := Replayer.replayLoop now s in
   Replayer.dispatched out =
     filter (Replayer.due (now - Replayer.startTime s))
       (skipn (Replayer.currentIndex s) (Replayer.events s)) /\
   Replayer.dispatched out =
     firstn (Replayer.currentIndex s1 - Replayer.currentIndex s)
       (skipn (Replayer.currentIndex s) (Replayer.events s)) /\
   Sorted ts_le (Replayer.dispatched out)) /\
  (let '(s2, out) := Replayer.run_ticks times s in
   firstn (Replayer.currentIndex s) (Replayer.events s) ++ Replayer.dispatched out =
     firstn (Replayer.currentIndex s2) (Replayer.events s) /\
   Sorted ts_le
     (firstn (Replayer.currentIndex s) (Replayer.events s) ++ Replayer.dispatched out)).
Proof.
  assert (Hs : Sorted ts_le (Replayer.events s))
    by (rewrite Hload; apply sort_by_timestamp_sorted).
  split.
  - pose proof (ReplayerFacts.replayLoop_tick now s Hs) as Ht.
    destruct (Replayer.replayLoop now s) as [s1 out] eqn:E.
    destruct Ht as [[-> ->] | (_ & _ & H1 & H2 & _)].
    + (* a playing replayer always emits at least a scheduling effect *)
      exfalso. unfold Replayer.replayLoop in E. rewrite Hplay, Hdoc in E.
      simpl in E. destruct (Replayer.dispatch_while _ _ _ _) as [idx o].
      destruct (_ <=? idx)%nat; injection E as _ E;
        apply (f_equal (@length _)) in E; rewrite length_app in E;
        simpl in E; lia.
    + repeat split; auto.
      rewrite H2. apply ReplayerFacts.sorted_firstn, ReplayerFacts.sorted_skipn, Hs.
  - pose proof (ReplayerFacts.run_ticks_prefix times s Hs) as Hr.
    destruct (Replayer.run_ticks times s) as [s2 out].
    destruct Hr as [_ H]. split; [exact H|].
    rewrite H. apply ReplayerFacts.sorted_firstn, Hs.
Qed.

Example trace3_sorted :
  map timestamp (sort_by_timestamp Sample.trace3) = [0; 250; 500]%Z.
Proof. reflexivity. Qed.

Example tick_at_260_dispatches_two :
  Replayer.dispatched (snd (Replayer.replayLoop 260 Sample.playing3)) =
  [Sample.click_at 0; Sample.click_at 250].
Proof. reflexivity. Qed.

Lemma replayLoop_dispatches_due_events_in_order_witness :
  (let '(s1, out) := Replayer.replayLoop 260 Sample.playing3 in
   Replayer.dispatched out =
     filter (Replayer.due (260 - Replayer.startTime Sample.playing3))
       (skipn (Replayer.currentIndex Sample.playing3) (Replayer.events Sample.playing3)) /\
   Replayer.dispatched out =
     firstn (Replayer.currentIndex s1 - Replayer.currentIndex Sample.playing3)
       (skipn (Replayer.currentIndex Sample.playing3) (Replayer.events Sample.playing3)) /\
   Sorted ts_le (Replayer.dispatched out)) /\
  (let '(s2, out) := Replayer.run_ticks [0; 260; 600] Sample.playing3 in
   firstn (Replayer.currentIndex Sample.playing3) (Replayer.events Sample.playing3)
     ++ Replayer.dispatched out =
     firstn (Replayer.currentIndex s2) (Replayer.events Sample.playing3) /\
   Sorted ts_le
     (firstn (Replayer.currentIndex Sample.playing3) (Replayer.events Sample.playing3)
        ++ Replayer.dispatched out)).
Proof.
  apply (replayLoop_dispatches_due_events_in_order Sample.trace3 Sample.playing3
           260 [0; 260; 600]); reflexivity.
Defined.

(** [C9], as stated, fails: after [loadEvents([])] is called during a
    replay, [play()] finds [isPlaying] set, warns and returns without
    signalling completion, although the loaded event list is empty. *)
Lemma play_empty_while_playing_no_completion :
  Replayer.events Sample.playing_then_emptied = [] /\
  Replayer.isPlaying Sample.playing_then_emptied = true /\
  snd (fst (Replayer.play true 5 Sample.playing_then_emptied)) = [Replayer.Warn] /\
  ~ In Replayer.OnComplete (snd (fst (Replayer.play true 5 Sample.playing_then_emptied))).
Proof.
  vm_compute. repeat split; auto. intros [H|H]; [discriminate | exact H].
Qed.

(** [C9] (amended): when the replayer is not already playing, [play()]
    with an empty loaded event list warns, fires the completion callback
    and resolves, leaving the replayer unchanged, without reading the
    target's content document (so whether it is accessible does not
    matter) and without dispatching any event. When a replay is in
    progress, whatever the loaded events, [play()] only warns and returns:
    no completion callback, no dispatch, the replayer unchanged. *)
Theorem play_empty_completes_without_target (doc : bool) (now : Q)
    (s : Replayer.EventReplayer) :
  (Replayer.isPlaying s = false -> Replayer.events s = [] ->
     Replayer.play doc now s = (s, [Replayer.Warn; Replayer.OnComplete], Replayer.Resolved) /\
     Replayer.play doc now s = Replayer.play true now s) /\
  (Replayer.isPlaying s = true ->
     Replayer.play doc now s = (s, [Replayer.Warn], Replayer.Resolved)).
Proof.
  unfold Replayer.play. split.
  - intros Hidle Hempty. rewrite Hidle, Hempty. split; reflexivity.
  - intros Hp. rewrite Hp. reflexivity.
Qed.

Lemma play_empty_completes_without_target_witness :
  (Replayer.play false 0 Replayer.initial =
     (Replayer.initial, [Replayer.Warn; Replayer.OnComplete], Replayer.Resolved) /\
   Replayer.play false 0 Replayer.initial = Replayer.play true 0 Replayer.initial) /\
  Replayer.play true 5 Sample.playing3 = (Sample.playing3, [Replayer.Warn], Replayer.Resolved).
Proof.
  split.
  - apply (proj1 (play_empty_completes_without_target false 0 Replayer.initial));
      reflexivity.
  - apply (proj2 (play_empty_completes_without_target true 5 Sample.playing3));
      reflexivity.
Defined.

(** ** Duration reported by the interaction recorders *)

Lemma last_timestamp_or_zero_last (evs : list InteractionEvent) :
  last_timestamp_or_zero evs = last_recorded_timestamp evs.
Proof.
  unfold last_timestamp_or_zero, last_recorded_timestamp.
  destruct evs as [|x l] using rev_ind; [reflexivity|].
  rewrite length_app, rev_app_distr. simpl.
  replace (length l + 1 - 1)%nat with (length l) by lia.
  rewrite nth_error_app2, Nat.sub_diag by lia. simpl.
  replace (0 <? length l + 1)%nat with true; [reflexivity|].
  symmetry. apply Nat.ltb_lt. lia.
Qed.

(** [C10]: for both interaction recorders, whenever the recorder is not
    recording (in particular right after [stop()]), [getDuration()] is the
    timestamp of the last recorded event, or 0 when there is none, whatever
    the current time. *)
Theorem getDuration_stopped_is_last_timestamp
    (r1 : EventRecorder.t) (r2 : OverlayRecorder.t) (now : Q)
    (H1 : EventRecorder.isRecording r1 = false)
    (H2 : OverlayRecorder.isRecording r2 = false) :
  EventRecorder.getDuration now r1 = last_recorded_timestamp (EventRecorder.events r1) /\
  OverlayRecorder.getDuration now r2 = last_recorded_timestamp (OverlayRecorder.events r2) /\
  (forall t : EventRecorder.t,
     EventRecorder.getDuration now (fst (EventRecorder.stop t)) =
     last_recorded_timestamp (EventRecorder.events t)) /\
  (forall t : OverlayRecorder.t,
     OverlayRecorder.getDuration now (fst (OverlayRecorder.stop t)) =
     last_recorded_timestamp (OverlayRecorder.events t)).
Proof.
  unfold EventRecorder.getDuration, OverlayRecorder.getDuration.
  rewrite H1, H2. simpl. rewrite !last_timestamp_or_zero_last.
  split; [reflexivity|]. split; [reflexivity|].
  split; intros t.
  - unfold EventRecorder.stop.
    destruct (EventRecorder.isRecording t) eqn:Ht; simpl;
      [|rewrite Ht]; apply last_timestamp_or_zero_last.
  - unfold OverlayRecorder.stop.
    destruct (OverlayRecorder.isRecording t) eqn:Ht; simpl;
      [|rewrite Ht]; apply last_timestamp_or_zero_last.
Qed.

Example overlay_duration_after_stop :
  let r := OverlayRecorder.mk [] 0 true true true in
  let r := OverlayRecorder.onWindowBlur (1204 # 10) 10 20 r in
  OverlayRecorder.getDuration 5000 (fst (OverlayRecorder.stop r)) = inject_Z 120.
Proof. reflexivity. Qed.

Lemma getDuration_stopped_is_last_timestamp_witness :
  EventRecorder.getDuration 9000 Sample.stopped_event_recorder =
    last_recorded_timestamp (EventRecorder.events Sample.stopped_event_recorder) /\
  OverlayRecorder.getDuration 9000 Sample.stopped_overlay_recorder =
    last_recorded_timestamp (OverlayRecorder.events Sample.stopped_overlay_recorder) /\
  (forall t : EventRecorder.t,
     EventRecorder.getDuration 9000 (fst (EventRecorder.stop t)) =
     last_recorded_timestamp (EventRecorder.events t)) /\
  (forall t : OverlayRecorder.t,
     OverlayRecorder.getDuration 9000 (fst (OverlayRecorder.stop t)) =
     last_recorded_timestamp (OverlayRecorder.events t)).
Proof.
  apply (getDuration_stopped_is_last_timestamp Sample.stopped_event_recorder
           Sample.stopped_overlay_recorder 9000); reflexivity.
Defined.

(** ** Stopping a recording *)

Module RecorderFacts.
Import Capture.








End RecorderFacts.



Example stop_after_two_chunks :
  let r := Capture.run_ops
             [Capture.OpStart 0; Capture.OpData [Byte.x1a; Byte.x45];
              Capture.OpData []; Capture.OpData [Byte.xdf]]
             Capture.createRecorder in
  snd (Capture.stop [] false 3000 r) = Capture.Resolve [Byte.x1a; Byte.x45; Byte.xdf].
Proof. reflexivity. Qed.

Example stop_with_only_empty_data :
  let r := Capture.run_ops [Capture.OpStart 0; Capture.OpData []]
             Capture.createRecorder in
  snd (Capture.stop [] false 3000 r) = Capture.Reject Capture.NoDataRecorded.
Proof. reflexivity. Qed.

(** ** Beginning a prepared recording *)

(** [C5]: [beginPreparedRecording] without a prepared session only logs an
    error: the encoder is not started and the hook is unchanged.  On a
    prepared session it starts the encoder (with a 100 ms timeslice) and
    moves the hook from prepared to recording. *)
Theorem beginPreparedRecording_prepared_only (h : Capture.Hook) (now : Z) :
  ((Capture.recorderRef h = None \/ Capture.isPreparedRef h = false) ->
     Capture.beginPreparedRecording now h = (h, [Capture.ConsoleError])) /\
  (forall r, Capture.recorderRef h = Some r -> Capture.isPreparedRef h = true ->
     let '(h', out) := Capture.beginPreparedRecording now h in
     out = [Capture.MediaRecorderStart 100] /\
     Capture.isPreparedRef h' = false /\ Capture.isPrepared h' = false /\
     Capture.hook_isRecording h' = true /\
     exists r', Capture.recorderRef h' = Some r' /\
       Capture.st_isRecording (Capture.state r') = true /\ Capture.chunks r' = []).
Proof.
  unfold Capture.beginPreparedRecording. split.
  - intros [Hn|Hp]; [rewrite Hn; reflexivity|].
    destruct (Capture.recorderRef h); [rewrite Hp|]; reflexivity.
  - intros r Hr Hp. rewrite Hr, Hp. simpl.
    repeat split. eexists. repeat split.
Qed.

(** ** The compositor's draw loop *)

(** [C6]: on a tick of the running compositor where the crop target
    resolves to null, nothing is drawn, the next tick is requested and the
    loop keeps running. *)
Theorem drawFrame_unresolved_element_retries (fi : Capture.FrameInputs) (rid : nat)
    (c : Capture.Compositor) (Hrun : Capture.isRunning c = true) :
  let '(c', out) := Capture.drawFrame None fi rid c in
  out = [Capture.RequestAnimationFrame rid] /\
  Capture.isRunning c' = true /\ Capture.animationId c' = rid /\
  Capture.crop_width c' = Capture.crop_width c /\
  Capture.crop_height c' = Capture.crop_height c.
Proof.
  unfold Capture.drawFrame. rewrite Hrun. simpl. repeat split.
Qed.

Lemma drawFrame_unresolved_element_retries_witness :
  let '(c', out) := Capture.drawFrame None Sample.frame_2x 5 Sample.comp_300x250 in
  out = [Capture.RequestAnimationFrame 5] /\
  Capture.isRunning c' = true /\ Capture.animationId c' = 5%nat /\
  Capture.crop_width c' = Capture.crop_width Sample.comp_300x250 /\
  Capture.crop_height c' = Capture.crop_height Sample.comp_300x250.
Proof.
  apply (drawFrame_unresolved_element_retries Sample.frame_2x 5 Sample.comp_300x250);
    reflexivity.
Defined.

(** [C7]: cleanup cancels the pending frame, pauses the video sink and
    detaches its source, and only then stops the raw stream's tracks; the
    compositor is left stopped, so a late tick draws nothing and schedules
    nothing. *)
Theorem combinedCleanup_order (raw_tracks : list nat) (c : Capture.Compositor) :
  let '(c', out) := Capture.combinedCleanup raw_tracks c in
  out = [Capture.CancelAnimationFrame (Capture.animationId c); Capture.VideoPause;
         Capture.VideoDetachSource] ++ map Capture.TrackStop raw_tracks /\
  Capture.isRunning c' = false /\ Capture.video_attached c' = false /\
  (forall el fi rid, Capture.drawFrame el fi rid c' = (c', [])).
Proof.
  simpl. repeat split.
Qed.

Example cleanup_two_tracks :
  snd (Capture.combinedCleanup [7; 8]%nat (Capture.mkComp 300 250 true 42%nat true false)) =
  [Capture.CancelAnimationFrame 42; Capture.VideoPause; Capture.VideoDetachSource;
   Capture.TrackStop 7; Capture.TrackStop 8].
Proof. reflexivity. Qed.

(** ** The source rectangle of the compositor *)





(** ** Reload and record *)

(** [C8]: with a tag loaded, the orchestrator prepares the recorder, then
    counts down 3, 2, 1 with a one-second wait after each tick, then
    reloads the ad, then begins the prepared recording; when [prepare()]
    fails it stops right after it, with no countdown tick, reload or
    begin.  Without a loaded tag it does nothing. *)
Theorem handleReloadAndRecord_sequence (prepare_ok : bool) :
  Orchestrator.handleReloadAndRecord true true =
    [Orchestrator.SetIsStartingCapture true; Orchestrator.PrepareRecording;
     Orchestrator.SetCountdown (Some 3%nat); Orchestrator.Sleep 1000;
     Orchestrator.SetCountdown (Some 2%nat); Orchestrator.Sleep 1000;
     Orchestrator.SetCountdown (Some 1%nat); Orchestrator.Sleep 1000;
     Orchestrator.SetCountdown None; Orchestrator.SetIsAdReady false;
     Orchestrator.ReloadPreview; Orchestrator.BeginPreparedRecording;
     Orchestrator.SetIsStartingCapture false] /\
  filter Orchestrator.is_step (Orchestrator.handleReloadAndRecord true true) =
    [Orchestrator.PrepareRecording; Orchestrator.SetCountdown (Some 3%nat);
     Orchestrator.SetCountdown (Some 2%nat); Orchestrator.SetCountdown (Some 1%nat);
     Orchestrator.ReloadPreview; Orchestrator.BeginPreparedRecording] /\
  filter Orchestrator.is_step (Orchestrator.handleReloadAndRecord true false) =
    [Orchestrator.PrepareRecording] /\
  Orchestrator.handleReloadAndRecord false prepare_ok = [].
Proof.
  repeat split; reflexivity.
Qed.

(* ================================================================== *)
(** * Further properties of the code *)

(** ** The encoder's chunk buffer and duration accounting *)

Module RecorderMore.
Import Capture RecOpsView.

Lemma run_ops_app (o1 o2 : list RecOp) (r : Recorder) :
  run_ops (o1 ++ o2) r = run_ops o2 (run_ops o1 r).
Proof. unfold run_ops. apply fold_left_app. Qed.

Lemma run_ops_no_start_chunks (ops : list RecOp) (r : Recorder) :
  forallb (fun op => negb (is_start op)) ops = true ->
  chunks (run_ops ops r) =
  chunks r ++ filter (fun d : Blob => (0 <? length d)%nat) (data_of ops).
Proof.
  revert r; induction ops as [|op ops IH]; intros r H; simpl.
  - now rewrite app_nil_r.
  - apply andb_prop in H as [Hop Hops].
    unfold run_ops in IH |- *. simpl. rewrite IH by exact Hops.
    destruct op as [t|d|t|t]; simpl in Hop |- *; try discriminate.
    + unfold ondataavailable.
      destruct (0 <? length d)%nat; simpl; [now rewrite <- app_assoc|reflexivity].
    + unfold pause. destruct (_ && _); reflexivity.
    + unfold resume. destruct (_ && _); reflexivity.
Qed.

End RecorderMore.

(** [X1]: [start()] discards the chunks of any earlier recording and
    [ondataavailable] drops empty data: the encoder's buffer is exactly
    the non-empty data delivered since the last [start()], in order. *)
Theorem chunks_are_nonempty_data_since_start (pre post : list Capture.RecOp)
    (t0 : Z) (r : Capture.Recorder)
    (Hpost : forallb (fun op => negb (RecOpsView.is_start op)) post = true) :
  Capture.chunks (Capture.run_ops (pre ++ Capture.OpStart t0 :: post) r) =
  filter (fun d : Capture.Blob => (0 <? length d)%nat) (RecOpsView.data_of post).
Proof.
  rewrite RecorderMore.run_ops_app.
  change (Capture.run_ops (Capture.OpStart t0 :: post) ?x)
    with (Capture.run_ops post (Capture.step (Capture.OpStart t0) x)).
  rewrite RecorderMore.run_ops_no_start_chunks by exact Hpost.
  reflexivity.
Qed.

Lemma chunks_are_nonempty_data_since_start_witness :
  Capture.chunks
    (Capture.run_ops
       ([Capture.OpStart 0; Capture.OpData [Byte.x01]] ++
        Capture.OpStart 500 :: [Capture.OpData []; Capture.OpData [Byte.x02]])
       Capture.createRecorder) =
  filter (fun d : Capture.Blob => (0 <? length d)%nat)
    (RecOpsView.data_of [Capture.OpData []; Capture.OpData [Byte.x02]]).
Proof.
  apply (chunks_are_nonempty_data_since_start
           [Capture.OpStart 0; Capture.OpData [Byte.x01]]
           [Capture.OpData []; Capture.OpData [Byte.x02]] 500 Capture.createRecorder).
  reflexivity.
Defined.

(** [X2]: after [start()] at [t0] and completed pause/resume intervals, the
    duration reported by [getState()] at [t] is [t - t0] minus the total
    length of the intervals, and the recorder is recording, not paused. *)
Theorem getState_subtracts_pause_intervals (r0 : Capture.Recorder) (t0 t : Z)
    (ps : list (Z * Z)) :
  let r := RecOpsView.pauses ps (fst (Capture.start t0 r0)) in
  Capture.st_duration (Capture_getState t r) = (t - t0 - RecOpsView.paused_total ps)%Z /\
  Capture.st_isRecording (Capture.state r) = true /\
  Capture.st_isPaused (Capture.state r) = false.
Proof.
  cbv zeta.
  assert (Hgen : forall r, Capture.st_isRecording (Capture.state r) = true ->
            Capture.st_isPaused (Capture.state r) = false ->
            let r' := RecOpsView.pauses ps r in
            Capture.rec_startTime r' = Capture.rec_startTime r /\
            Capture.pausedDuration r' =
              (Capture.pausedDuration r + RecOpsView.paused_total ps)%Z /\
            Capture.st_isRecording (Capture.state r') = true /\
            Capture.st_isPaused (Capture.state r') = false).
  { induction ps as [|[p q] ps IH]; intros r Hr Hp; simpl.
    - repeat split; auto. lia.
    - unfold Capture.pause. rewrite Hr, Hp. simpl.
      unfold Capture.resume. simpl.
      match goal with |- context [RecOpsView.pauses ps ?x] =>
        destruct (IH x eq_refl eq_refl) as (H1 & H2 & H3 & H4) end.
      simpl in *.
      repeat split; auto; rewrite H2; lia. }
  destruct (Hgen (fst (Capture.start t0 r0)) eq_refl eq_refl) as (H1 & H2 & H3 & H4).
  unfold Capture_getState. cbn [fst Capture.start] in *.
  rewrite H3, H1, H2. cbn.
  split; [lia|]. split; [reflexivity|exact H4].
Qed.

(** [X3]: the interval of a pause still in progress is not subtracted:
    while paused, the duration reported by [getState()] keeps growing with
    the clock, and stopping during the pause records a duration that
    includes it. *)
Theorem paused_duration_counts_ongoing_pause (r0 : Capture.Recorder) (t0 t1 t : Z) :
  let r := Capture.pause t1 (fst (Capture.start t0 r0)) in
  Capture.st_isPaused (Capture.state r) = true /\
  Capture.st_duration (Capture_getState t r) = (t - t0)%Z /\
  Capture.st_duration (Capture.state (fst (Capture.onstop t r))) = (t - t0)%Z.
Proof.
  cbv zeta. unfold Capture.pause, Capture_getState, Capture.onstop. simpl.
  repeat split; lia.
Qed.

(** [X4]: a second [pause()] while paused does not move the start of the
    pause, and a second [resume()] does not add the interval again. *)
Theorem pause_resume_repeat_noop (r : Capture.Recorder) (p1 p2 q1 q2 : Z) :
  Capture.pause p2 (Capture.pause p1 r) = Capture.pause p1 r /\
  Capture.resume q2 (Capture.resume q1 r) = Capture.resume q1 r.
Proof.
  unfold Capture.pause, Capture.resume.
  destruct r as [c st pd ps [isr isp dur]]; simpl.
  destruct isr, isp; simpl; split; reflexivity.
Qed.

(** ** The interaction recorder's handlers *)

Module HandlerFacts.
Import RecorderHandlers.

Lemma math_round_mono (x y : Q) : x <= y -> (math_round x <= math_round y)%Z.
Proof.
  intros H. unfold math_round. apply Qfloor_resp_le.
  now apply Qplus_le_compat; [|apply Qle_refl].
Qed.

Lemma math_round_gap (x y : Q) (k : Z) :
  x + inject_Z k <= y -> (math_round x + k <= math_round y)%Z.
Proof.
  intros H. unfold math_round.
  rewrite <- (Qfloor_Z (Qfloor (x + (1 # 2)) + k)).
  apply Qfloor_resp_le. rewrite inject_Z_plus.
  apply Qle_trans with (x + (1 # 2) + inject_Z k).
  - apply Qplus_le_compat; [apply Qfloor_le | apply Qle_refl].
  - setoid_replace (x + (1 # 2) + inject_Z k) with ((x + inject_Z k) + (1 # 2)) by ring.
    apply Qplus_le_compat; [exact H | apply Qle_refl].
Qed.

Lemma createInteractionEvent_some (ty : InteractionEventType) (ev : DomEvent)
    (ts : Q) (e : InteractionEvent) :
  createInteractionEvent ty ev ts = Some e ->
  ev_type e = ty /\ timestamp e = math_round ts.
Proof.
  destruct ev as [x y tg|[[x y]|] tg|]; simpl; intros H;
    try (injection H as <-; split; reflexivity).
  destruct ty; try discriminate. injection H as <-. split; reflexivity.
Qed.

Lemma sorted_snoc {A} (R : A -> A -> Prop) (l : list A) (z : A) :
  Sorted R l -> Forall (fun y => R y z) l -> Sorted R (l ++ [z]).
Proof.
  induction 1 as [|x l Hs IH Hhd]; intros Hf; simpl.
  - repeat constructor.
  - inversion Hf as [|? ? Hxz Hf']; subst. constructor; [now apply IH|].
    destruct l as [|y l]; simpl; constructor.
    + exact Hxz.
    + now inversion Hhd.
Qed.

Lemma mousemove_timestamps_snoc (evs : list InteractionEvent) (e : InteractionEvent) :
  mousemove_timestamps (evs ++ [e]) =
  mousemove_timestamps evs ++
    (if is_mousemove (ev_type e) then [timestamp e] else []).
Proof.
  unfold mousemove_timestamps. rewrite filter_app, map_app. simpl.
  destruct (is_mousemove (ev_type e)); reflexivity.
Qed.

(** What [handle] does to the recorder, once recording. *)
Lemma handle_cases (ty : InteractionEventType) (ev : DomEvent) (now : Q) (s : session) :
  let s' := handle ty ev now s in
  EventRecorder.startTime (rec s') = EventRecorder.startTime (rec s) /\
  ((EventRecorder.events (rec s') = EventRecorder.events (rec s) /\
    (lastMouseMoveTime s' = lastMouseMoveTime s \/
     (is_mousemove ty = true /\ lastMouseMoveTime s' = now - EventRecorder.startTime (rec s) /\
      lastMouseMoveTime s + MOUSEMOVE_THROTTLE <= now - EventRecorder.startTime (rec s)))) \/
   exists e, EventRecorder.events (rec s') = EventRecorder.events (rec s) ++ [e] /\
     ev_type e = ty /\
     timestamp e = math_round (now - EventRecorder.startTime (rec s)) /\
     (is_mousemove ty = false /\ lastMouseMoveTime s' = lastMouseMoveTime s \/
      is_mousemove ty = true /\ lastMouseMoveTime s' = now - EventRecorder.startTime (rec s) /\
      lastMouseMoveTime s + MOUSEMOVE_THROTTLE <= now - EventRecorder.startTime (rec s))).
Proof.
  cbv zeta. unfold handle.
  destruct (EventRecorder.isRecording (rec s)) eqn:Hr; simpl;
    [|split; [reflexivity|left; split; [reflexivity|left; reflexivity]]].
  set (ts := now - EventRecorder.startTime (rec s)).
  destruct (is_mousemove ty) eqn:Hm.
  - destruct (Qle_bool MOUSEMOVE_THROTTLE (ts - lastMouseMoveTime s)) eqn:Hq; simpl;
      [|split; [reflexivity|left; split; [reflexivity|left; reflexivity]]].
    apply Qle_bool_iff in Hq.
    assert (Hq' : lastMouseMoveTime s + MOUSEMOVE_THROTTLE <= ts).
    { apply Qle_trans with (lastMouseMoveTime s + (ts - lastMouseMoveTime s)).
      - apply Qplus_le_compat; [apply Qle_refl | exact Hq].
      - apply Qle_lteq. right. ring. }
    destruct (createInteractionEvent ty ev ts) as [e|] eqn:Hc; simpl.
    + unfold EventRecorder.record. rewrite Hr. simpl.
      split; [reflexivity|]. right. exists e.
      destruct (createInteractionEvent_some _ _ _ _ Hc) as [Ht Hts].
      repeat split; auto.
    + split; [reflexivity|]. left. split; [reflexivity|]. right. auto.
  - destruct (createInteractionEvent ty ev ts) as [e|] eqn:Hc; simpl.
    + unfold EventRecorder.record. rewrite Hr. simpl.
      split; [reflexivity|]. right. exists e.
      destruct (createInteractionEvent_some _ _ _ _ Hc) as [Ht Hts].
      repeat split; auto.
    + split; [reflexivity|]. left. split; [reflexivity|left; reflexivity].
Qed.

End HandlerFacts.

Module HandlerRun.
Import RecorderHandlers HandlerFacts.

Lemma handle_gap (ty : InteractionEventType) (ev : DomEvent) (now : Q) (s : session) :
  Sorted gap16 (mousemove_timestamps (EventRecorder.events (rec s))) ->
  Forall (fun z => (z <= math_round (lastMouseMoveTime s))%Z)
    (mousemove_timestamps (EventRecorder.events (rec s))) ->
  let s' := handle ty ev now s in
  Sorted gap16 (mousemove_timestamps (EventRecorder.events (rec s'))) /\
  Forall (fun z => (z <= math_round (lastMouseMoveTime s'))%Z)
    (mousemove_timestamps (EventRecorder.events (rec s'))).
Proof.
  intros Hs Hf s'.
  destruct (handle_cases ty ev now s) as [_ [[He [Hl|[_ [Hl Hg]]]]|[e [He [Ht [Hts Hl]]]]]];
    fold s' in He, Hl |- *.
  - rewrite He, Hl. auto.
  - rewrite He, Hl. split; [exact Hs|].
    pose proof (math_round_gap _ _ 16 Hg) as Hr.
    eapply Forall_impl; [|exact Hf]. simpl. intros z Hz. lia.
  - rewrite He, mousemove_timestamps_snoc, Ht.
    destruct Hl as [[Hm Hl]|[Hm [Hl Hg]]]; rewrite Hm.
    + rewrite app_nil_r, Hl. auto.
    + rewrite Hl, Hts.
      pose proof (math_round_gap _ _ 16 Hg) as Hr.
      split.
      * apply sorted_snoc; [exact Hs|].
        eapply Forall_impl; [|exact Hf]. unfold gap16. simpl. intros z Hz. lia.
      * apply Forall_app. split; [|constructor; [lia|constructor]].
        eapply Forall_impl; [|exact Hf]. simpl. intros z Hz. lia.
Qed.

Lemma run_gap (calls : list (InteractionEventType * DomEvent * Q)) (s : session) :
  Sorted gap16 (mousemove_timestamps (EventRecorder.events (rec s))) ->
  Forall (fun z => (z <= math_round (lastMouseMoveTime s))%Z)
    (mousemove_timestamps (EventRecorder.events (rec s))) ->
  Sorted gap16 (mousemove_timestamps (EventRecorder.events (rec (run calls s)))).
Proof.
  unfold run. revert s. induction calls as [|[[ty ev] now] calls IH]; intros s Hs Hf.
  - exact Hs.
  - simpl. destruct (handle_gap ty ev now s Hs Hf) as [Hs' Hf'].
    exact (IH _ Hs' Hf').
Qed.

Lemma handle_sorted (ty : InteractionEventType) (ev : DomEvent) (now : Q) (s : session) :
  Sorted ts_le (EventRecorder.events (rec s)) ->
  Forall (fun e => (timestamp e <= math_round (now - EventRecorder.startTime (rec s)))%Z)
    (EventRecorder.events (rec s)) ->
  let s' := handle ty ev now s in
  EventRecorder.startTime (rec s') = EventRecorder.startTime (rec s) /\
  Sorted ts_le (EventRecorder.events (rec s')) /\
  Forall (fun e => (timestamp e <= math_round (now - EventRecorder.startTime (rec s)))%Z)
    (EventRecorder.events (rec s')).
Proof.
  intros Hs Hf s'.
  destruct (handle_cases ty ev now s) as [Hst [[He _]|[e [He [_ [Hts _]]]]]];
    fold s' in Hst, He |- *; split; try exact Hst; rewrite He.
  - auto.
  - split.
    + apply sorted_snoc; [exact Hs|].
      eapply Forall_impl; [|exact Hf]. unfold ts_le. intros a Ha. lia.
    + apply Forall_app. split; [exact Hf|constructor; [lia|constructor]].
Qed.

Lemma run_sorted (calls : list (InteractionEventType * DomEvent * Q)) (s : session) :
  StronglySorted Qle (call_times calls) ->
  Sorted ts_le (EventRecorder.events (rec s)) ->
  Forall (fun t => Forall (fun e =>
      (timestamp e <= math_round (t - EventRecorder.startTime (rec s)))%Z)
    (EventRecorder.events (rec s))) (call_times calls) ->
  Sorted ts_le (EventRecorder.events (rec (run calls s))).
Proof.
  unfold run. revert s. induction calls as [|[[ty ev] now] calls IH]; intros s Ht Hs Hf.
  - exact Hs.
  - simpl. simpl in Ht, Hf.
    inversion Ht as [|? ? Ht' Hle]; subst.
    inversion Hf as [|? ? Hnow Hrest]; subst.
    destruct (handle_sorted ty ev now s Hs Hnow) as [Hst [Hs' Hf']].
    apply IH; [exact Ht'|exact Hs'|].
    rewrite Hst. apply Forall_forall. intros t Hin.
    rewrite Forall_forall in Hle.
    pose proof (Hle t Hin) as Hnt.
    eapply Forall_impl; [|exact Hf']. simpl. intros e He.
    assert (Hm : (math_round (now - EventRecorder.startTime (rec s)) <=
                 math_round (t - EventRecorder.startTime (rec s)))%Z).
    { apply math_round_mono. apply Qplus_le_compat; [exact Hnt|apply Qle_refl]. }
    lia.
Qed.

End HandlerRun.

(** [X5]: Once [start] has succeeded, the recorded mousemove events that the
    handlers push are at least [MOUSEMOVE_THROTTLE] = 16 ms apart: each
    recorded mousemove timestamp exceeds the previous one by 16 or more. *)
Theorem recorded_mousemoves_throttled (doc : bool) (t0 : Q)
    (s : RecorderHandlers.session) (calls : list (InteractionEventType * RecorderHandlers.DomEvent * Q))
    (Hstart : snd (RecorderHandlers.start doc t0 s) = true) :
  Sorted RecorderHandlers.gap16
    (RecorderHandlers.mousemove_timestamps
       (EventRecorder.events
          (RecorderHandlers.rec (RecorderHandlers.run calls (fst (RecorderHandlers.start doc t0 s)))))).
Proof.
  apply HandlerRun.run_gap; unfold RecorderHandlers.start, EventRecorder.start in *;
    destruct (EventRecorder.isRecording (RecorderHandlers.rec s)); try discriminate;
    destruct doc; try discriminate; simpl; constructor.
Qed.

(** [X6]: Once [start] has succeeded, handler calls made at non-decreasing
    [performance.now()] times push events whose timestamps are in
    non-decreasing order. *)
Theorem recorded_events_in_time_order (doc : bool) (t0 : Q)
    (s : RecorderHandlers.session) (calls : list (InteractionEventType * RecorderHandlers.DomEvent * Q))
    (Hstart : snd (RecorderHandlers.start doc t0 s) = true)
    (Htimes : StronglySorted Qle (RecorderHandlers.call_times calls)) :
  Sorted ts_le
    (EventRecorder.events
       (RecorderHandlers.rec (RecorderHandlers.run calls (fst (RecorderHandlers.start doc t0 s))))).
Proof.
  assert (He : EventRecorder.events (RecorderHandlers.rec (fst (RecorderHandlers.start doc t0 s))) = []).
  { unfold RecorderHandlers.start, EventRecorder.start in *.
    destruct (EventRecorder.isRecording (RecorderHandlers.rec s)); try discriminate;
      destruct doc; try discriminate; reflexivity. }
  apply HandlerRun.run_sorted; [exact Htimes| rewrite He; constructor |].
  apply Forall_forall. intros t _. rewrite He. constructor.
Qed.

Lemma recorded_mousemoves_throttled_witness :
  snd (RecorderHandlers.start true 1000 Sample.idle_session) = true /\
  RecorderHandlers.mousemove_timestamps
    (EventRecorder.events
       (RecorderHandlers.rec (RecorderHandlers.run Sample.pointer_calls
          (fst (RecorderHandlers.start true 1000 Sample.idle_session))))) = [20; 40]%Z /\
  Sorted RecorderHandlers.gap16
    (RecorderHandlers.mousemove_timestamps
       (EventRecorder.events
          (RecorderHandlers.rec (RecorderHandlers.run Sample.pointer_calls
             (fst (RecorderHandlers.start true 1000 Sample.idle_session)))))).
Proof.
  split; [reflexivity|]. split; [vm_compute; reflexivity|].
  apply (recorded_mousemoves_throttled true 1000 Sample.idle_session Sample.pointer_calls).
  reflexivity.
Defined.

Lemma recorded_events_in_time_order_witness :
  snd (RecorderHandlers.start true 1000 Sample.idle_session) = true /\
  StronglySorted Qle (RecorderHandlers.call_times Sample.pointer_calls) /\
  Sorted ts_le
    (EventRecorder.events
       (RecorderHandlers.rec (RecorderHandlers.run Sample.pointer_calls
          (fst (RecorderHandlers.start true 1000 Sample.idle_session))))).
Proof.
  assert (Ht : StronglySorted Qle (RecorderHandlers.call_times Sample.pointer_calls)).
  { simpl. repeat constructor; vm_compute; discriminate. }
  split; [reflexivity|]. split; [exact Ht|].
  apply (recorded_events_in_time_order true 1000 Sample.idle_session Sample.pointer_calls).
  - reflexivity.
  - exact Ht.
Defined.

(** [X7]: [start] does not reset [lastMouseMoveTime]: after a successful restart
    at [t0], a mousemove whose timestamp [now - t0] is less than 16 ms past
    the [lastMouseMoveTime] left by the earlier session is dropped, and the
    recorder is left unchanged. *)
Theorem mousemove_throttle_survives_restart (doc : bool) (t0 now : Q)
    (s : RecorderHandlers.session) (ev : RecorderHandlers.DomEvent)
    (Hstart : snd (RecorderHandlers.start doc t0 s) = true)
    (Hnear : now - t0 < RecorderHandlers.lastMouseMoveTime s + 16) :
  RecorderHandlers.handle mousemove ev now (fst (RecorderHandlers.start doc t0 s)) =
  fst (RecorderHandlers.start doc t0 s).
Proof.
  unfold RecorderHandlers.start, EventRecorder.start in *.
  destruct (EventRecorder.isRecording (RecorderHandlers.rec s)); try discriminate;
    destruct doc; try discriminate; simpl in *.
  unfold RecorderHandlers.handle; simpl.
  destruct (Qle_bool RecorderHandlers.MOUSEMOVE_THROTTLE
              (now - t0 - RecorderHandlers.lastMouseMoveTime s)) eqn:Hq; [|reflexivity].
  exfalso. apply Qle_bool_iff in Hq.
  apply (Qlt_not_le _ _ Hnear).
  apply Qle_trans with (RecorderHandlers.lastMouseMoveTime s +
                        (now - t0 - RecorderHandlers.lastMouseMoveTime s)).
  - apply Qplus_le_compat; [apply Qle_refl|exact Hq].
  - apply Qle_lteq. right. ring.
Qed.

Lemma mousemove_throttle_survives_restart_witness :
  snd (RecorderHandlers.start true 100000
         (RecorderHandlers.mkSession Sample.stopped_event_recorder 59000)) = true /\
  101000 - 100000 < 59000 + 16 /\
  RecorderHandlers.handle mousemove (RecorderHandlers.MouseEv 5 5 None) 101000
    (fst (RecorderHandlers.start true 100000
            (RecorderHandlers.mkSession Sample.stopped_event_recorder 59000))) =
  fst (RecorderHandlers.start true 100000
         (RecorderHandlers.mkSession Sample.stopped_event_recorder 59000)).
Proof.
  split; [reflexivity|]. split; [vm_compute; reflexivity|].
  apply mousemove_throttle_survives_restart; [reflexivity|vm_compute; reflexivity].
Defined.

(** ** The replayer's [stop], progress reports and completion *)

Module ReplayerMore.
Import Replayer ReplayerOps.

Lemma run_ticks_not_playing (times : list Q) (s : EventReplayer) :
  isPlaying s = false -> run_ticks times s = (s, []).
Proof.
  intros Hp. induction times as [|t times IH]; simpl; [reflexivity|].
  unfold replayLoop at 1. rewrite Hp. simpl. rewrite IH. reflexivity.
Qed.

Lemma progress_reports_app (a b : list effect) :
  progress_reports (a ++ b) = progress_reports a ++ progress_reports b.
Proof. induction a as [|[] a IH]; simpl; f_equal; auto. Qed.

Lemma count_complete_app (a b : list effect) :
  count_complete (a ++ b) = (count_complete a + count_complete b)%nat.
Proof. induction a as [|[] a IH]; simpl; auto. Qed.

Lemma dispatch_while_reports (el : Q) (rest : list InteractionEvent) (idx total : nat) :
  let '(idx', out) := dispatch_while el rest idx total in
  progress_reports out = seq (S idx) (idx' - idx) /\
  count_complete out = 0%nat /\ (idx <= idx')%nat.
Proof.
  revert idx. induction rest as [|e rest IH]; intros idx; simpl.
  - rewrite Nat.sub_diag. auto.
  - destruct (Qle_bool (inject_Z (timestamp e)) el); simpl.
    + specialize (IH (S idx)).
      destruct (dispatch_while el rest (S idx) total) as [idx' out].
      destruct IH as (H1 & H2 & H3). simpl.
      replace (idx' - idx)%nat with (S (idx' - S idx)) by lia. simpl.
      rewrite H1, H2. auto with arith.
    + rewrite Nat.sub_diag. auto.
Qed.

Lemma replayLoop_reports (now : Q) (s : EventReplayer) :
  let '(s', out) := replayLoop now s in
  events s' = events s /\
  progress_reports out = seq (S (currentIndex s)) (currentIndex s' - currentIndex s) /\
  (currentIndex s <= currentIndex s')%nat /\
  (count_complete out <= 1)%nat /\
  (count_complete out = 1%nat ->
     isPlaying s' = false /\ (length (events s) <= currentIndex s')%nat) /\
  (isPlaying s = false -> out = [] /\ s' = s).
Proof.
  unfold replayLoop.
  destruct (isPlaying s) eqn:Hp, (targetDocument s) eqn:Ht; simpl;
    try (rewrite Nat.sub_diag; repeat split; auto; discriminate).
  pose proof (dispatch_while_reports (now - startTime s)
                (skipn (currentIndex s) (events s)) (currentIndex s)
                (length (events s))) as Hd.
  destruct (dispatch_while _ _ _ _) as [idx out].
  destruct Hd as (H1 & H2 & H3).
  destruct (length (events s) <=? idx)%nat eqn:Hc; simpl;
    rewrite progress_reports_app, count_complete_app, H1, H2; simpl;
    rewrite ?app_nil_r; repeat split; auto; try discriminate.
  apply Nat.leb_le. exact Hc.
Qed.

Lemma run_ticks_reports (times : list Q) (s : EventReplayer) :
  let '(s', out) := run_ticks times s in
  events s' = events s /\
  progress_reports out = seq (S (currentIndex s)) (currentIndex s' - currentIndex s) /\
  (currentIndex s <= currentIndex s')%nat /\
  (count_complete out <= 1)%nat /\
  (count_complete out = 1%nat ->
     isPlaying s' = false /\ (length (events s) <= currentIndex s')%nat).
Proof.
  revert s. induction times as [|t times IH]; intros s; simpl.
  - rewrite Nat.sub_diag. repeat split; auto; discriminate.
  - pose proof (replayLoop_reports t s) as Hr.
    destruct (replayLoop t s) as [s1 out1].
    destruct Hr as (E1 & P1 & L1 & C1 & F1 & _).
    destruct (count_complete out1) as [|[|k]] eqn:Hc1; [| |lia].
    + pose proof (IH s1) as Hi.
      destruct (run_ticks times s1) as [s2 out2].
      destruct Hi as (E2 & P2 & L2 & C2 & F2).
      rewrite progress_reports_app, count_complete_app, Hc1, P1, P2, E2, E1.
      replace (currentIndex s2 - currentIndex s)%nat
        with ((currentIndex s1 - currentIndex s) + (currentIndex s2 - currentIndex s1))%nat
        by lia.
      rewrite seq_app. replace (S (currentIndex s) + (currentIndex s1 - currentIndex s))%nat
        with (S (currentIndex s1)) by lia.
      repeat split; auto; try lia.
      all: simpl in H; destruct (F2 H) as [Hp Hl]; rewrite E1 in Hl; auto.
    + destruct (F1 eq_refl) as [Hp Hl].
      rewrite (run_ticks_not_playing times s1 Hp).
      rewrite app_nil_r, Hc1, P1, E1. repeat split; auto.
Qed.

Lemma sorted_last_max (l : list InteractionEvent) (x : InteractionEvent) :
  Sorted ts_le (l ++ [x]) -> forall y, In y (l ++ [x]) -> (timestamp y <= timestamp x)%Z.
Proof.
  intros Hs. apply Sorted_StronglySorted in Hs; [|exact ReplayerFacts.ts_le_trans].
  induction l as [|a l IH]; simpl; intros y Hy.
  - destruct Hy as [<-|[]]. lia.
  - inversion Hs as [|? ? Hs' Hfa]; subst.
    destruct Hy as [<-|Hy]; [|exact (IH Hs' y Hy)].
    rewrite Forall_forall in Hfa. apply Hfa, in_or_app. right. left. reflexivity.
Qed.

End ReplayerMore.

(** [X8]: Once [stop()] has run, the scheduling loop does nothing more: any
    later ticks dispatch no event and report neither progress nor
    completion. [stop()] is idempotent and leaves [getProgress()]
    unchanged. *)
Theorem replayer_stop_halts (s : Replayer.EventReplayer) (times : list Q) :
  Replayer.run_ticks times (ReplayerOps.stop s) = (ReplayerOps.stop s, []) /\
  ReplayerOps.stop (ReplayerOps.stop s) = ReplayerOps.stop s /\
  ReplayerOps.getProgress (ReplayerOps.stop s) = ReplayerOps.getProgress s.
Proof.
  split; [apply ReplayerMore.run_ticks_not_playing; reflexivity|].
  split; reflexivity.
Qed.

(** [X9]: Over any sequence of ticks of the scheduling loop, the [onProgress]
    counts are consecutive, one past the starting index up to the final
    index, with none skipped or repeated; [onComplete] fires at most once,
    and when it fires playing has stopped and the index has reached the
    number of events. *)
Theorem replay_progress_consecutive_complete_once
    (s : Replayer.EventReplayer) (times : list Q) :
  let '(s', out) := Replayer.run_ticks times s in
  ReplayerOps.progress_reports out =
    seq (S (Replayer.currentIndex s)) (Replayer.currentIndex s' - Replayer.currentIndex s) /\
  (ReplayerOps.count_complete out <= 1)%nat /\
  (ReplayerOps.count_complete out = 1%nat ->
     Replayer.isPlaying s' = false /\
     (length (Replayer.events s) <= Replayer.currentIndex s')%nat).
Proof.
  pose proof (ReplayerMore.run_ticks_reports times s) as H.
  destruct (Replayer.run_ticks times s) as [s' out].
  destruct H as (_ & H1 & _ & H2 & H3). auto.
Qed.

(** [X10]: After [loadEvents], [getDuration()] of the replayer is the largest
    timestamp of the loaded events (an event having it is among them), and
    [0] when none were loaded. *)
Theorem replayer_duration_is_max_timestamp
    (evs : list InteractionEvent) (s : Replayer.EventReplayer) :
  (evs = [] -> ReplayerOps.getDuration (Replayer.loadEvents evs s) = 0) /\
  (forall e, In e evs ->
     inject_Z (timestamp e) <= ReplayerOps.getDuration (Replayer.loadEvents evs s)) /\
  (evs <> [] -> exists e, In e evs /\
     ReplayerOps.getDuration (Replayer.loadEvents evs s) = inject_Z (timestamp e)).
Proof.
  unfold ReplayerOps.getDuration, Replayer.loadEvents. simpl.
  rewrite last_timestamp_or_zero_last. unfold last_recorded_timestamp.
  pose proof (sort_by_timestamp_perm evs) as Hp.
  pose proof (sort_by_timestamp_sorted evs) as Hs.
  destruct (sort_by_timestamp evs) as [|x l] eqn:E using rev_ind.
  - apply Permutation_sym, Permutation_nil in Hp. subst evs. simpl.
    split; [reflexivity|]. split; [intros e []|]. intros H; exfalso; exact (H eq_refl).
  - clear IHl. rewrite rev_app_distr. simpl.
    split; [intros ->; apply Permutation_nil in Hp; destruct l; discriminate|].
    split.
    + intros e He. rewrite <- Zle_Qle.
      apply (ReplayerMore.sorted_last_max l x Hs).
      now apply (Permutation_in _ Hp).
    + intros _. exists x. split; [|reflexivity].
      apply (Permutation_in _ (Permutation_sym Hp)). apply in_or_app. right. now left.
Qed.

(** ** The overlay recorder's pointer handlers *)

Module OverlayFacts.
Import OverlayHandlers.

Definition inv (w h : Q) (s : session) : Prop :=
  width s = w /\ height s = h /\
  (OverlayRecorder.isMouseOverAd (ov s) = true ->
     0 <= lastMouseX s /\ lastMouseX s <= w /\ 0 <= lastMouseY s /\ lastMouseY s <= h) /\
  Forall (in_box w h) (OverlayRecorder.events (ov s)).

Lemma in_box_of (w h x y : Q) (ty : InteractionEventType) (ts : Z) :
  0 <= x -> x <= w -> 0 <= y -> y <= h ->
  in_box w h (mkEvent ty ts (math_round x) (math_round y) None).
Proof.
  intros H1 H2 H3 H4. unfold in_box; simpl.
  pose proof (HandlerFacts.math_round_mono _ _ H1).
  pose proof (HandlerFacts.math_round_mono _ _ H2).
  pose proof (HandlerFacts.math_round_mono _ _ H3).
  pose proof (HandlerFacts.math_round_mono _ _ H4).
  change (math_round 0) with 0%Z in *. lia.
Qed.

Lemma handle_inv (w h : Q) (c : call) (s : session) :
  inv w h s -> inv w h (handle c s).
Proof.
  intros (Hw & Hh & Hm & Hf). unfold inv.
  destruct c as [cx cy l t|now|now tch l t]; simpl.
  - unfold onMouseMove.
    destruct (OverlayRecorder.isRecording (ov s)), (OverlayRecorder.iframe (ov s)); simpl;
      try tauto.
    destruct (Qle_bool 0 (cx - l)) eqn:E1, (Qle_bool 0 (cy - t)) eqn:E2,
      (Qle_bool (cx - l) (width s)) eqn:E3, (Qle_bool (cy - t) (height s)) eqn:E4;
      simpl; repeat split; auto; try discriminate;
      apply Qle_bool_iff; subst; assumption.
  - unfold onWindowBlur, OverlayRecorder.onWindowBlur.
    destruct (OverlayRecorder.isRecording (ov s)) eqn:Er,
      (OverlayRecorder.isMouseOverAd (ov s)) eqn:Eo; simpl;
      try (rewrite ?Eo; tauto).
    destruct (Hm eq_refl) as (H1 & H2 & H3 & H4).
    repeat split; auto. apply Forall_app. split; [exact Hf|].
    constructor; [apply in_box_of; assumption|constructor].
  - unfold onTouchStart.
    destruct (OverlayRecorder.isRecording (ov s)), (OverlayRecorder.iframe (ov s)); simpl;
      try tauto.
    destruct tch as [[cx cy]|]; [|tauto].
    destruct (Qle_bool 0 (cx - l)) eqn:E1, (Qle_bool 0 (cy - t)) eqn:E2,
      (Qle_bool (cx - l) (width s)) eqn:E3, (Qle_bool (cy - t) (height s)) eqn:E4;
      simpl; try tauto.
    split; [exact Hw|]. split; [exact Hh|]. split; [exact Hm|]. apply Forall_app. split; [exact Hf|].
    apply Qle_bool_iff in E1, E2, E3, E4. rewrite Hw in E3. rewrite Hh in E4.
    constructor; [apply in_box_of; assumption|constructor].
Qed.

Lemma run_inv (w h : Q) (calls : list call) (s : session) :
  inv w h s -> inv w h (run calls s).
Proof.
  unfold run. revert s. induction calls as [|c calls IH]; intros s H; simpl; auto.
  apply IH, handle_inv, H.
Qed.

End OverlayFacts.

(** [X11]: After a successful [start] with a given width and height, on a recorder
    whose mouse was not last seen over the ad, every click and touch the
    overlay recorder records lies within the ad: [0 <= x <= width] and
    [0 <= y <= height], up to the rounding of [Math.round]. *)
Theorem overlay_events_within_ad (has_iframe : bool) (w h t0 : Q)
    (s : OverlayHandlers.session) (calls : list OverlayHandlers.call)
    (Hstart : snd (OverlayHandlers.start has_iframe w h t0 s) = true)
    (Hout : OverlayRecorder.isMouseOverAd (OverlayHandlers.ov s) = false) :
  Forall (OverlayHandlers.in_box w h)
    (OverlayRecorder.events
       (OverlayHandlers.ov
          (OverlayHandlers.run calls (fst (OverlayHandlers.start has_iframe w h t0 s))))).
Proof.
  apply OverlayFacts.run_inv.
  unfold OverlayHandlers.start, OverlayRecorder.start in *.
  destruct (OverlayRecorder.isRecording (OverlayHandlers.ov s)); try discriminate;
    destruct has_iframe; try discriminate; simpl.
  split; [reflexivity|]. split; [reflexivity|].
  split; [intros Hc; simpl in Hc; rewrite Hout in Hc; discriminate|constructor].
Qed.

(** [X12]: [start] resets neither [isMouseOverAd] nor the last mouse
    position: when the mouse was last seen over the ad, a window blur right
    after a restart records a click at the previous position, whatever the
    new width and height. *)
Theorem overlay_blur_after_restart_uses_old_position (has_iframe : bool) (w h t0 now : Q)
    (s : OverlayHandlers.session)
    (Hstart : snd (OverlayHandlers.start has_iframe w h t0 s) = true)
    (Hover : OverlayRecorder.isMouseOverAd (OverlayHandlers.ov s) = true) :
  OverlayRecorder.events
    (OverlayHandlers.ov (OverlayHandlers.onWindowBlur now
       (fst (OverlayHandlers.start has_iframe w h t0 s)))) =
  [mkEvent click (math_round (now - t0))
     (math_round (OverlayHandlers.lastMouseX s)) (math_round (OverlayHandlers.lastMouseY s)) None].
Proof.
  unfold OverlayHandlers.start, OverlayRecorder.start in *.
  destruct (OverlayRecorder.isRecording (OverlayHandlers.ov s)); try discriminate;
    destruct has_iframe; try discriminate; simpl.
  unfold OverlayHandlers.onWindowBlur, OverlayRecorder.onWindowBlur; simpl.
  rewrite Hover. reflexivity.
Qed.

Lemma overlay_events_within_ad_witness :
  snd (OverlayHandlers.start true 300 250 1000 OverlayHandlers.initial) = true /\
  OverlayRecorder.isMouseOverAd (OverlayHandlers.ov OverlayHandlers.initial) = false /\
  Forall (OverlayHandlers.in_box 300 250)
    (OverlayRecorder.events
       (OverlayHandlers.ov
          (OverlayHandlers.run Sample.overlay_calls
             (fst (OverlayHandlers.start true 300 250 1000 OverlayHandlers.initial))))).
Proof.
  split; [reflexivity|]. split; [reflexivity|].
  apply overlay_events_within_ad; reflexivity.
Defined.

Lemma overlay_blur_after_restart_uses_old_position_witness :
  snd (OverlayHandlers.start true 100 50 5000 Sample.overlay_stopped_over) = true /\
  OverlayRecorder.isMouseOverAd (OverlayHandlers.ov Sample.overlay_stopped_over) = true /\
  OverlayRecorder.events
    (OverlayHandlers.ov (OverlayHandlers.onWindowBlur 5200
       (fst (OverlayHandlers.start true 100 50 5000 Sample.overlay_stopped_over)))) =
  [mkEvent click (math_round (5200 - 5000))
     (math_round (OverlayHandlers.lastMouseX Sample.overlay_stopped_over))
     (math_round (OverlayHandlers.lastMouseY Sample.overlay_stopped_over)) None].
Proof.
  split; [reflexivity|]. split; [reflexivity|].
  apply overlay_blur_after_restart_uses_old_position; reflexivity.
Defined.

(** ** Screenshots and the hook's [stopRecording] *)

(** [X13]: Once the video's metadata has loaded, [captureScreenshot] stops every
    track of the captured stream after drawing the frame, whether or not
    [canvas.toBlob] produces a blob, and its promise settles. While the
    metadata has not loaded, no track is stopped and the promise stays
    pending. *)
Theorem screenshot_always_stops_tracks (tracks : list nat) (loaded : bool)
    (rect : Capture.DOMRect) (fi : Capture.FrameInputs) (w h : N)
    (toBlob : option Capture.Blob) :
  let '(out, res) := CaptureMore.captureScreenshot (Some tracks) loaded rect fi w h toBlob in
  (loaded = true ->
     res <> None /\
     exists draw, out = draw :: map Capture.TrackStop tracks) /\
  (loaded = false -> out = [] /\ res = None).
Proof.
  unfold CaptureMore.captureScreenshot.
  destruct loaded; simpl.
  - destruct toBlob; (split; [intros _; split; [discriminate|eexists; reflexivity]|discriminate]).
  - split; [discriminate|auto].
Qed.

(** [X14]: A screenshot of an ad of size [w] by [h] crops the same source
    rectangle of the captured frame as a tick of the live compositor
    ([drawFrame]) of a crop of that size, on the same element and frame:
    both draw it onto the [w] by [h] canvas at [(0, 0)]. *)
Theorem screenshot_crop_matches_drawFrame (c : Capture.Compositor) (rect : Capture.DOMRect)
    (fi : Capture.FrameInputs) (rid : nat) (tracks : list nat) (w h : N)
    (toBlob : option Capture.Blob)
    (Hw : Capture.crop_width c = inject_Z (Z.of_N w))
    (Hh : Capture.crop_height c = inject_Z (Z.of_N h))
    (Hrun : Capture.isRunning c = true)
    (Hvid : Capture.truthy (Capture.videoWidth fi) && Capture.truthy (Capture.videoHeight fi) = true) :
  hd_error (snd (Capture.drawFrame (Some rect) fi rid c)) =
  hd_error (fst (CaptureMore.captureScreenshot (Some tracks) true rect fi w h toBlob)).
Proof.
  unfold Capture.drawFrame. rewrite Hrun, Hvid. simpl.
  unfold Capture.source_rect, CaptureMore.captureScreenshot. rewrite Hw, Hh. simpl.
  destruct toBlob; reflexivity.
Qed.


Lemma screenshot_crop_matches_drawFrame_witness :
  Capture.crop_width Sample.comp_300x250 = inject_Z (Z.of_N 300) /\
  Capture.crop_height Sample.comp_300x250 = inject_Z (Z.of_N 250) /\
  Capture.isRunning Sample.comp_300x250 = true /\
  Capture.truthy (Capture.videoWidth Sample.frame_2x) &&
    Capture.truthy (Capture.videoHeight Sample.frame_2x) = true /\
  hd_error (snd (Capture.drawFrame (Some Sample.rect_inside) Sample.frame_2x 5 Sample.comp_300x250)) =
  hd_error (fst (CaptureMore.captureScreenshot (Some [1%nat; 2%nat]) true Sample.rect_inside
                   Sample.frame_2x 300 250 None)).
Proof.
  split; [reflexivity|]. split; [reflexivity|]. split; [reflexivity|].
  split; [reflexivity|].
  apply screenshot_crop_matches_drawFrame; reflexivity.
Defined.

(** ** Dispatch of replayed events *)

Module DispatchFacts.
Import ReplayDispatch String.StringSyntax.
Local Open Scope string_scope.

(** [X16]: with a target document and all event constructors available,
    every replayed mouse or touch event is dispatched as the event of its
    own type followed by a pointer event: [mousedown]/[touchstart] add
    [pointerdown], [mouseup]/[touchend] add [pointerup],
    [mousemove]/[touchmove] add [pointermove]; a [click] has no ["mouse"]
    in its name, so the pointer event is a second [click]; nothing is
    warned.  A scroll dispatches a single [scroll] event.  Without
    [PointerEvent] the pointer event is dropped; a touch event is
    dispatched only if [TouchEvent] exists and, when there is a touch
    point, [Touch] too, and otherwise nothing is dispatched for it; in
    each of these cases the caught exception is warned about.  Without a
    target document nothing is dispatched. *)
Theorem replay_dispatch_names (api : Ctors) (e : InteractionEvent) (button : option Z)
    (touches : option (list (option Z * Z * Z))) (scrollTop scrollLeft : option Z)
    (doc_target : bool) :
  let names :=
    match ev_type e with
    | click => ["click"; "click"]
    | mousedown => ["mousedown"; "pointerdown"]
    | mouseup => ["mouseup"; "pointerup"]
    | mousemove => ["mousemove"; "pointermove"]
    | touchstart => ["touchstart"; "pointerdown"]
    | touchmove => ["touchmove"; "pointermove"]
    | touchend => ["touchend"; "pointerup"]
    | scroll => ["scroll"]
    end in
  let no_points := match touches with Some [] => true | _ => false end in
  let touch_ok := (has_Touch api || no_points) && has_TouchEvent api in
  let out := dispatchEvent api true e button touches scrollTop scrollLeft doc_target in
  dispatchEvent api false e button touches scrollTop scrollLeft doc_target = [] /\
  (has_PointerEvent api && has_Touch api && has_TouchEvent api = true ->
     dispatched_names out = names /\ ~ In ConsoleWarn out) /\
  dispatched_names out =
    match ev_type e with
    | scroll => names
    | touchstart | touchmove | touchend =>
        if touch_ok then firstn (if has_PointerEvent api then 2 else 1) names else []
    | _ => firstn (if has_PointerEvent api then 2 else 1) names
    end /\
  (In ConsoleWarn out <->
     match ev_type e with
     | scroll => False
     | touchstart | touchmove | touchend => touch_ok && has_PointerEvent api = false
     | _ => has_PointerEvent api = false
     end).
Proof.
  intros names no_points touch_ok out.
  split; [reflexivity|].
  destruct api as [hp ht hte].
  unfold out, names, touch_ok, no_points. clear out names touch_ok no_points.
  destruct e as [ty ts x y tg]. unfold dispatchEvent. simpl.
  unfold dispatchMouseEvent, dispatchTouchEvent, dispatchScrollEvent.
  destruct ty, hp, ht, hte, touches as [[|t ts']|], scrollTop, scrollLeft; cbn;
    intuition (first [discriminate | reflexivity | idtac]).
Qed.

End DispatchFacts.

(** ** Batch screenshots *)

Module BatchFacts.
Import Batch.

Lemma captured_app (a b : list effect) : captured (a ++ b) = captured a ++ captured b.
Proof. unfold captured. apply flat_map_app. Qed.

Lemma no_zip_app (a b : list effect) :
  forallb (fun f => negb (is_create_zip f)) (a ++ b) =
  forallb (fun f => negb (is_create_zip f)) a && forallb (fun f => negb (is_create_zip f)) b.
Proof. apply forallb_app. Qed.

Lemma batch_loop_no_zip (i total : nat) (sizes : list BatchSize) shot :
  forallb (fun f => negb (is_create_zip f)) (fst (batch_loop i total sizes shot)) = true.
Proof.
  revert i. induction sizes as [|sz rest IH]; intros i; simpl; [reflexivity|].
  destruct (shot sz); [|reflexivity].
  specialize (IH (S i)). destruct (batch_loop (S i) total rest shot) as [out fs].
  simpl in *. exact IH.
Qed.

Lemma batch_loop_all_ok (i total : nat) (sizes : list BatchSize) shot :
  Forall (fun sz => shot sz <> None) sizes ->
  exists fs, snd (batch_loop i total sizes shot) = Some fs /\
    Forall2 (fun sz (f : ZipEntry) =>
               let '(fw, fh, b) := f in fw = bw sz /\ fh = bh sz /\ shot sz = Some b) sizes fs /\
    captured (fst (batch_loop i total sizes shot)) = map (fun sz => (bw sz, bh sz)) sizes.
Proof.
  revert i. induction sizes as [|sz rest IH]; intros i Hok; simpl.
  - exists []. auto.
  - inversion Hok as [|? ? Hsz Hrest]; subst.
    destruct (shot sz) as [b|] eqn:Hs; [|congruence].
    destruct (IH (S i) Hrest) as (fs & H1 & H2 & H3).
    destruct (batch_loop (S i) total rest shot) as [out fs'].
    simpl in *. subst fs'. exists ((bw sz, bh sz, b) :: fs).
    split; [reflexivity|]. split; [constructor; auto|].
    unfold captured in *. simpl. rewrite H3. reflexivity.
Qed.

Lemma batch_loop_fails (i total : nat) (pre post : list BatchSize) (sz : BatchSize) shot :
  Forall (fun s => shot s <> None) pre -> shot sz = None ->
  snd (batch_loop i total (pre ++ sz :: post) shot) = None /\
  captured (fst (batch_loop i total (pre ++ sz :: post) shot)) =
    map (fun s => (bw s, bh s)) (pre ++ [sz]).
Proof.
  revert i. induction pre as [|p pre IH]; intros i Hok Hfail; simpl.
  - rewrite Hfail. auto.
  - inversion Hok as [|? ? Hp Hrest]; subst.
    destruct (shot p) as [b|] eqn:Hs; [|congruence].
    destruct (IH (S i) Hrest Hfail) as [H1 H2].
    destruct (batch_loop (S i) total (pre ++ sz :: post) shot) as [out fs].
    simpl in *. subst fs. split; [reflexivity|].
    unfold captured in *. simpl. rewrite H2. reflexivity.
Qed.

End BatchFacts.

(** [X17]: a batch over a non-empty list of sizes begins by setting
    [isCapturing] and, on every path, ends by restoring the original width
    and height, clearing the progress and resetting [isCapturing]. When every
    capture succeeds, the sizes are captured in order and one zip is created
    from one entry per size, in order, each holding that size's screenshot.
    When a capture fails, the sizes after it are not captured and no zip is
    created. *)
Theorem batch_screenshot_restores_size (sizes : list Batch.BatchSize) (w h : N)
    (shot : Batch.BatchSize -> option Capture.Blob)
    (zip : list Batch.ZipEntry -> option Capture.Blob)
    (Hne : sizes <> []) :
  let out := Batch.handleBatchScreenshot true sizes w h shot zip in
  (exists body, out = Batch.SetIsCapturing true :: body ++
     [Batch.SetWidth w; Batch.SetHeight h; Batch.SetBatchProgress None;
      Batch.SetIsCapturing false]) /\
  (Forall (fun sz => shot sz <> None) sizes ->
     Batch.captured out = map (fun sz => (Batch.bw sz, Batch.bh sz)) sizes /\
     exists fs, In (Batch.CreateZip fs) out /\
       Forall2 (fun sz (f : Batch.ZipEntry) =>
                  let '(fw, fh, b) := f in
                  fw = Batch.bw sz /\ fh = Batch.bh sz /\ shot sz = Some b) sizes fs) /\
  (forall pre sz post, sizes = pre ++ sz :: post ->
     Forall (fun s => shot s <> None) pre -> shot sz = None ->
     Batch.captured out = map (fun s => (Batch.bw s, Batch.bh s)) (pre ++ [sz]) /\
     forallb (fun f => negb (Batch.is_create_zip f)) out = true).
Proof.
  cbv zeta. unfold Batch.handleBatchScreenshot.
  destruct (length sizes =? 0)%nat eqn:Hl.
  { apply Nat.eqb_eq, length_zero_iff_nil in Hl. contradiction. }
  simpl.
  pose proof (BatchFacts.batch_loop_no_zip 0 (length sizes) sizes shot) as Hnz.
  split.
  - destruct (Batch.batch_loop 0 (length sizes) sizes shot) as [lo [fs|]].
    + eexists. reflexivity.
    + eexists. reflexivity.
  - split.
    + intros Hok.
      destruct (BatchFacts.batch_loop_all_ok 0 (length sizes) sizes shot Hok) as (fs & H1 & H2 & H3).
      destruct (Batch.batch_loop 0 (length sizes) sizes shot) as [lo fs'].
      simpl in H1, H3. subst fs'.
      split.
      * simpl. rewrite !BatchFacts.captured_app, H3. simpl.
        destruct (zip fs); simpl; rewrite !app_nil_r; reflexivity.
      * exists fs. split; [|exact H2].
        right. apply in_or_app. left. apply in_or_app. right. right. left. reflexivity.
    + intros pre sz post -> Hok Hfail.
      destruct (BatchFacts.batch_loop_fails 0 (length (pre ++ sz :: post)) pre post sz shot Hok Hfail)
        as [H1 H2].
      destruct (Batch.batch_loop 0 (length (pre ++ sz :: post)) (pre ++ sz :: post) shot) as [lo fs].
      simpl in H1, H2, Hnz. subst fs. split.
      * simpl. rewrite !BatchFacts.captured_app, H2. simpl. rewrite !app_nil_r. reflexivity.
      * simpl. rewrite !BatchFacts.no_zip_app, Hnz. reflexivity.
Qed.

Lemma batch_screenshot_restores_size_witness :
  Sample.batch_sizes <> [] /\
  Batch.captured
    (Batch.handleBatchScreenshot true Sample.batch_sizes 320 480
       (fun _ => Some [Byte.x01]) (fun _ => Some [Byte.x02])) = [(300%N, 250%N); (728%N, 90%N)].
Proof.
  assert (Hne : Sample.batch_sizes <> []) by discriminate.
  split; [exact Hne|].
  destruct (batch_screenshot_restores_size Sample.batch_sizes 320 480
              (fun _ => Some [Byte.x01]) (fun _ => Some [Byte.x02]) Hne) as [_ [Hall _]].
  destruct Hall as [Hc _].
  - repeat constructor; discriminate.
  - exact Hc.
Defined.
